(** * autossh-go: a shallow embedding of the tunnel engine and of the
      connection monitor, with the properties of its specification.

    The Go sources are embedded module by module:
    - [config]  : internal/config/config.go   (forward-spec parsing)
    - [ssh]     : internal/ssh/client.go      (the transport handle)
    - [monitor] : internal/monitor            (reconnect loop, backoff)
    - [tunnel]  : internal/tunnel             (relay primitive, SOCKS5)

    Go values are modelled as the code has them: [int] and
    [time.Duration] are 64-bit signed integers ([Z] with the wrap-around
    written out), bytes are [Byte.byte], Go strings are [string]. *)

From Stdlib Require Import ZArith List Bool Lia.
From Stdlib Require Import Strings.String Strings.Ascii Strings.Byte.
From Stdlib Require Import Recdef FunInd.
From Stdlib Require Import Numbers.DecimalString Numbers.DecimalPos.
From Stdlib Require Import Numbers.DecimalN.
Import ListNotations.

Local Open Scope string_scope.
Local Open Scope list_scope.
Local Open Scope Z_scope.

(** ** Go primitives *)

Module Go.

(** Signed 64-bit wrap-around, the arithmetic of Go's [int] (on 64-bit
    targets), [int64] and [time.Duration]. *)
Definition wrap64 (z : Z) : Z := (z + 2 ^ 63) mod 2 ^ 64 - 2 ^ 63.

Definition int64 (z : Z) : Prop := - 2 ^ 63 <= z < 2 ^ 63.

(** [time.Second], in nanoseconds. *)
Definition Second : Z := 1000000000.

(** Error values.  The three sentinels are the ones the sources compare
    against with [==]; every other error (an [*net.OpError], an error of
    the SSH library, ...) is an [OtherError]. *)
Inductive error : Type :=
| io_EOF
| io_ErrUnexpectedEOF
| net_ErrClosed
| OtherError (id : nat).

(** A Go [(T, error)] result. *)
Inductive result (A : Type) : Type :=
| Ok (a : A)
| Err (e : error).
Arguments Ok {A} a.
Arguments Err {A} e.

(** [strings.Contains(s, string(c))] for a one-byte separator. *)
Fixpoint Contains (s : string) (c : ascii) : bool :=
  match s with
  | EmptyString => false
  | String a r => Ascii.eqb a c || Contains r c
  end.

(** [strings.Split(s, string(sep))] for a one-byte separator: the
    substrings between the separators, so that a string with n
    separators gives n+1 parts (the empty string gives one empty
    part). *)
Fixpoint Split (s : string) (sep : ascii) : list string :=
  match s with
  | EmptyString => [EmptyString]
  | String a r =>
      if Ascii.eqb a sep then EmptyString :: Split r sep
      else match Split r sep with
           | h :: t => String a h :: t
           | [] => [String a EmptyString]
           end
  end.

(** The verb [%d] of [fmt] on an unsigned value. *)
Definition fmt_d (n : N) : string := NilEmpty.string_of_uint (N.to_uint n).

(** Conversion to [byte] (truncation to the low 8 bits). *)
Definition byte_of_Z (z : Z) : byte :=
  match Byte.of_N (Z.to_N (z mod 256)) with
  | Some b => b
  | None => x00
  end.

Definition Z_of_byte (b : byte) : Z := Z.of_N (Byte.to_N b).

(** [strings.Index(s, string(c))] for a one-byte separator: the index
    of its first occurrence, -1 when there is none. *)
Fixpoint Index (s : string) (c : ascii) : Z :=
  match s with
  | EmptyString => -1
  | String a r =>
      if Ascii.eqb a c then 0
      else let i := Index r c in
           if i =? -1 then -1 else i + 1
  end.

(** [strings.LastIndex(s, string(c))]: the index of the last
    occurrence, -1 when there is none. *)
Fixpoint LastIndex (s : string) (c : ascii) : Z :=
  match s with
  | EmptyString => -1
  | String a r =>
      let i := LastIndex r c in
      if i =? -1 then (if Ascii.eqb a c then 0 else -1) else i + 1
  end.

(** The slices [s[:i]] and [s[i:]], for 0 <= i <= len(s). *)
Fixpoint take (n : nat) (s : string) : string :=
  match n, s with
  | S n', String a r => String a (take n' r)
  | _, _ => EmptyString
  end.

Fixpoint drop (n : nat) (s : string) : string :=
  match n, s with
  | S n', String _ r => drop n' r
  | _, _ => s
  end.

Definition slice_to (s : string) (i : Z) : string := take (Z.to_nat i) s.

Definition slice_from (s : string) (i : Z) : string := drop (Z.to_nat i) s.

(** The verb [%d] of [fmt] on an [int]. *)
Definition fmt_int (z : Z) : string :=
  if z <? 0 then String "-" (fmt_d (Z.to_N (- z))) else fmt_d (Z.to_N z).

End Go.

(** ** internal/config/config.go *)

Module config.
Import Go.
Local Open Scope string_scope.

Record LocalTunnel := { LBind : string; LTarget : string }.
Record RemoteTunnel := { RBind : string; RTarget : string }.
Record DynamicTunnel := { DBind : string }.

Record ReconnectConfig := {
  Enabled : bool;
  Interval : Z;      (* time.Duration *)
  MaxRetries : Z     (* int; 0 = retry for ever *)
}.

(** The errors of the parsers, one per [fmt.Errorf] site. *)
Inductive parse_error : Type :=
| InvalidLocalForward (spec : string)
| InvalidRemoteForward (spec : string).

(** [func ParseLocalForward(spec string) : a `LocalTunnel` or an error];
    format [[bind_address:]port:host:hostport]. *)
Definition ParseLocalForward (spec : string) : LocalTunnel + parse_error :=
  let parts := Split spec ":" in
  match parts with
  | [p0; p1; p2] =>
      inl {| LBind := "127.0.0.1:" ++ p0; LTarget := p1 ++ ":" ++ p2 |}
  | [p0; p1; p2; p3] =>
      inl {| LBind := p0 ++ ":" ++ p1; LTarget := p2 ++ ":" ++ p3 |}
  | _ => inr (InvalidLocalForward spec)
  end.

(** [func ParseRemoteForward(spec string) : a `RemoteTunnel` or an error]. *)
Definition ParseRemoteForward (spec : string) : RemoteTunnel + parse_error :=
  let parts := Split spec ":" in
  match parts with
  | [p0; p1; p2] =>
      inl {| RBind := "0.0.0.0:" ++ p0; RTarget := p1 ++ ":" ++ p2 |}
  | [p0; p1; p2; p3] =>
      inl {| RBind := p0 ++ ":" ++ p1; RTarget := p2 ++ ":" ++ p3 |}
  | _ => inr (InvalidRemoteForward spec)
  end.

(** [func ParseDynamicForward(spec string) : a `DynamicTunnel` or an error];
    format [[bind_address:]port].  It has no failing path. *)
Definition ParseDynamicForward (spec : string) : DynamicTunnel + parse_error :=
  if Contains spec ":" then inl {| DBind := spec |}
  else inl {| DBind := "127.0.0.1:" ++ spec |}.

(** *** What "a syntactically valid host:port pair" means

    The part of [s] after its last colon (all of [s] when it has
    none). *)
Definition port_of (s : string) : string := last (Split s ":") "".

Definition is_digit (a : ascii) : bool :=
  let n := nat_of_ascii a in (48 <=? n)%nat && (n <=? 57)%nat.

Fixpoint all_digits (s : string) : bool :=
  match s with
  | EmptyString => true
  | String a r => is_digit a && all_digits r
  end.

(** A decimal port component: one digit at least, digits only. *)
Definition decimal_port (s : string) : bool :=
  negb (String.eqb s "") && all_digits s.

Definition valid_hostport (s : string) : bool :=
  Contains s ":" && decimal_port (port_of s).

(** *** The configuration *)

Record ServerConfig := { Host : string; Port : Z; User : string }.

Record AuthConfig := {
  AuthType : string;       (* field [Type]: "password" or "key" *)
  Password : string;
  KeyFile : string;
  Passphrase : string
}.

Record TunnelsConfig := {
  TunnelsLocal : list LocalTunnel;       (* field [Local] *)
  TunnelsRemote : list RemoteTunnel;     (* field [Remote] *)
  TunnelsDynamic : list DynamicTunnel    (* field [Dynamic] *)
}.

Record Config := {
  Server : ServerConfig;
  Auth : AuthConfig;
  Tunnels : TunnelsConfig;
  Reconnect : ReconnectConfig;
  LogLevel : string
}.

(** The errors of [ParseTarget] and of [Validate], one per [fmt.Errorf]
    site. *)
Inductive target_error : Type :=
| InvalidPort (text : string)
| NoHost.

Inductive validate_error : Type :=
| HostMissing
| UserMissing
| PortInvalid (port : Z)
| AuthTypeInvalid (authType : string)
| NoTunnel.

Section Target.

(** [fmt.Sscanf(text, "%d", &port)]: the number scanned, or [None] when
    it gives an error; it belongs to Go's standard library. *)
Variable Sscanf_d : string -> option Z.

(** [func ParseTarget(target string) (user, host string, port int, err error)];
    format [[user@]host[:port]]. *)
Definition ParseTarget (target : string)
  : (string * string * Z) + target_error :=
  let port := 22 in
  let idx := Index target "@" in
  let (user, target) :=
    if negb (idx =? -1)%Z
    then (slice_to target idx, slice_from target (idx + 1)%Z)
    else ("", target) in
  let idx := LastIndex target ":" in
  let parsed :=
    if negb (idx =? -1)%Z
    then match Sscanf_d (slice_from target (idx + 1)%Z) with
         | Some port => inl (slice_to target idx, port)
         | None => inr (InvalidPort (slice_from target (idx + 1)%Z))
         end
    else inl (target, port) in
  match parsed with
  | inr e => inr e
  | inl (host, port) =>
      if String.eqb host "" then inr NoHost else inl (user, host, port)
  end.

End Target.

Section Validate.

(** [os.UserHomeDir()] and [filepath.Join], of Go's standard library. *)
Variable UserHomeDir : result string.
Variable filepath_Join : list string -> string.

Definition with_KeyFile (c : Config) (keyFile : string) : Config :=
  {| Server := Server c;
     Auth := {| AuthType := AuthType (Auth c);
                Password := Password (Auth c);
                KeyFile := keyFile;
                Passphrase := Passphrase (Auth c) |};
     Tunnels := Tunnels c;
     Reconnect := Reconnect c;
     LogLevel := LogLevel c |}.

(** The [switch c.Auth.Type] of [Validate]. *)
Definition validateAuth (c : Config) : option validate_error * Config :=
  if String.eqb (AuthType (Auth c)) "password" then (None, c)
  else if String.eqb (AuthType (Auth c)) "key" then
    if String.eqb (KeyFile (Auth c)) "" then
      match UserHomeDir with
      | Ok home =>
          (None, with_KeyFile c (filepath_Join [home; ".ssh"; "id_rsa"]))
      | Err _ => (None, c)
      end
    else (None, c)
  else (Some (AuthTypeInvalid (AuthType (Auth c))), c).

(** [func (c *Config) Validate() error] *)
Definition Validate (c : Config) : option validate_error * Config :=
  if String.eqb (Host (Server c)) "" then (Some HostMissing, c)
  else if String.eqb (User (Server c)) "" then (Some UserMissing, c)
  else if (Port (Server c) <=? 0)%Z || (Port (Server c) >? 65535)%Z
  then (Some (PortInvalid (Port (Server c))), c)
  else
    match validateAuth c with
    | (Some e, c) => (Some e, c)
    | (None, c) =>
        if (List.length (TunnelsLocal (Tunnels c)) =? 0)%nat
           && (List.length (TunnelsRemote (Tunnels c)) =? 0)%nat
           && (List.length (TunnelsDynamic (Tunnels c)) =? 0)%nat
        then (Some NoTunnel, c)
        else (None, c)
    end.

End Validate.

(** [func (c *Config) Address() string] *)
Definition Address (c : Config) : string :=
  Host (Server c) ++ ":" ++ fmt_int (Port (Server c)).

End config.

(** ** internal/ssh/client.go *)

Module ssh.
Import Go.

Section Client.

(** The SSH library ([golang.org/x/crypto/ssh]) is an external
    collaborator: its connection handle, and what its [Dial],
    [Listen] and [SendRequest] answer, are left abstract. *)
Variable sshConn : Type.
Variables netConn netListener : Type.
Variable conn_Dial : sshConn -> string -> string -> result netConn.
Variable conn_Listen : sshConn -> string -> string -> result netListener.
Variable conn_SendRequest : sshConn -> string -> bool -> option error.

(** [type Client struct]: [conn] is [nil] until [Connect] succeeds
    and again after [Close]. *)
Record Client := {
  conn : option sshConn;
  closed : bool
}.

(** [fmt.Errorf] of the three methods below (the message reads
    "SSH not connected"). *)
Definition ErrNotConnected : error := OtherError 0.

(** [func (c *Client) Dial(network, address string) (net.Conn, error)] *)
Definition Dial (c : Client) (network address : string)
  : result netConn * Client :=
  match conn c with
  | None => (Err ErrNotConnected, c)
  | Some k => (conn_Dial k network address, c)
  end.

(** [func (c *Client) Listen(network, address string) (net.Listener, error)] *)
Definition Listen (c : Client) (network address : string)
  : result netListener * Client :=
  match conn c with
  | None => (Err ErrNotConnected, c)
  | Some k => (conn_Listen k network address, c)
  end.

(** [func (c *Client) KeepAlive() error] *)
Definition KeepAlive (c : Client) : option error * Client :=
  match conn c with
  | None => (Some ErrNotConnected, c)
  | Some k => (conn_SendRequest k "keepalive@autossh" true, c)
  end.

(** [func (c *Client) Close() error]; the result of closing the
    library's connection is [close_err]. *)
Definition Close (c : Client) (close_err : option error)
  : option error * Client :=
  match conn c with
  | Some _ => (close_err, {| conn := None; closed := true |})
  | None => (None, {| conn := None; closed := true |})
  end.

Definition NewClient : Client := {| conn := None; closed := false |}.

(** The errors of [Connect], one per [fmt.Errorf] site. *)
Inductive connect_error : Type :=
| AuthMethodsFailed (e : error)
| DialFailed (e : error).

(** [func (c *Client) Connect() error]; [auth] is the error of
    [GetAuthMethods] and [dial] the result of the library's [ssh.Dial].
    A connection that is still held is closed first. *)
Definition Connect (c : Client) (auth : option error)
           (dial : result sshConn) : option connect_error * Client :=
  let c := match conn c with
           | Some _ => {| conn := None; closed := closed c |}
           | None => c
           end in
  match auth with
  | Some e => (Some (AuthMethodsFailed e), c)
  | None =>
      match dial with
      | Err e => (Some (DialFailed e), c)
      | Ok k => (None, {| conn := Some k; closed := false |})
      end
  end.

(** [func (c *Client) IsClosed() bool] *)
Definition IsClosed (c : Client) : bool := closed c.

(** [func (c *Client) IsConnected() bool] *)
Definition IsConnected (c : Client) : bool :=
  match conn c with
  | None => false
  | Some k =>
      if closed c then false
      else match conn_SendRequest k "keepalive@autossh" true with
           | None => true
           | Some _ => false
           end
  end.

End Client.

Arguments conn {sshConn} c.
Arguments closed {sshConn} c.
Arguments NewClient {sshConn}.
Arguments Close {sshConn} c close_err.
Arguments Dial {sshConn netConn} conn_Dial c network address.
Arguments Listen {sshConn netListener} conn_Listen c network address.
Arguments KeepAlive {sshConn} conn_SendRequest c.
Arguments Connect {sshConn} c auth dial.
Arguments IsClosed {sshConn} c.
Arguments IsConnected {sshConn} conn_SendRequest c.

End ssh.

(** ** internal/monitor *)

Module monitor.
Import Go config.

(** The loop of [calculateBackoff]:
    [for i := 1; i < attempt && i < 6; i++ { backoff *= 2 }].
    The counter stays within 1..6, so [i++] never wraps; the doubling
    of the [time.Duration] does. *)
Function backoff_loop (attempt backoff i : Z)
         {measure (fun i => Z.to_nat (6 - i)) i} : Z :=
  if (i <? attempt) && (i <? 6)
  then backoff_loop attempt (wrap64 (backoff * 2)) (i + 1)
  else backoff.
Proof.
  intros attempt backoff i H.
  apply andb_prop in H as [_ H]. apply Z.ltb_lt in H. lia.
Defined.

(** [func (m *Monitor) calculateBackoff(attempt int, baseInterval time.Duration) time.Duration] *)
Definition calculateBackoff (attempt baseInterval : Z) : Z :=
  let backoff := backoff_loop attempt baseInterval 1 in
  let maxBackoff := 60 * Second in
  if backoff >? maxBackoff then maxBackoff else backoff.

(** *** [Monitor.Start]

    What the collaborators answer during one turn of the [for] loop.
    A field is read only when the turn reaches its call. *)
Record turn := {
  stop_pending : bool;         (* first [select]: [<-m.stopCh] is ready *)
  connect : option error;      (* [m.client.Connect()] *)
  stop_in_backoff : bool;      (* backoff [select]: [m.stopCh] wins over [time.After] *)
  tunnels : option error;      (* [m.tunnelMgr.Start()] *)
  wakeup : option error        (* last [select]: [None] is [m.stopCh], [Some e] is [errChan] *)
}.

(** The calls the loop makes on its collaborators, and its waits. *)
Inductive action : Type :=
| Connect
| Backoff (waitTime : Z)
| TunnelStart
| StartKeepAlive (interval : Z)
| TunnelStop
| ClientClose.

Inductive flow : Type :=
| Continue (retryCount : Z)      (* next turn of the loop *)
| Return (err : option error).   (* [return err] / [return nil] *)

(** One turn of the [for] loop of [Start], from the value of
    [retryCount] at its top. *)
Definition loop_body (cfg : ReconnectConfig) (retryCount : Z) (t : turn)
  : list action * flow :=
  let maxRetries := MaxRetries cfg in
  let interval := Interval cfg in
  if stop_pending t then ([], Return None)
  else
    match connect t with
    | Some err =>
        if negb (Enabled cfg) then ([Connect], Return (Some err))
        else
          let retryCount := wrap64 (retryCount + 1) in
          if (maxRetries >? 0) && (retryCount >=? maxRetries)
          then ([Connect], Return (Some err))
          else
            let waitTime := calculateBackoff retryCount interval in
            if stop_in_backoff t
            then ([Connect; Backoff waitTime], Return None)
            else ([Connect; Backoff waitTime], Continue retryCount)
    | None =>
        let retryCount := 0 in
        match tunnels t with
        | Some _ =>
            ([Connect; TunnelStart; ClientClose], Continue retryCount)
        | None =>
            let pre := [Connect; TunnelStart; StartKeepAlive (30 * Second)] in
            match wakeup t with
            | None => (pre ++ [TunnelStop; ClientClose], Return None)
            | Some err =>
                if negb (Enabled cfg)
                then (pre ++ [TunnelStop; ClientClose], Return (Some err))
                else (pre ++ [TunnelStop; ClientClose], Continue retryCount)
            end
        end
    end.

(** Where a run of the loop stands after the turns given to it. *)
Inductive outcome : Type :=
| Running (retryCount : Z)       (* at the top of the loop *)
| Returned (err : option error). (* [Start] has returned *)

Fixpoint Start_from (cfg : ReconnectConfig) (retryCount : Z)
         (turns : list turn) : list action * outcome :=
  match turns with
  | [] => ([], Running retryCount)
  | t :: rest =>
      match loop_body cfg retryCount t with
      | (acts, Return err) => (acts, Returned err)
      | (acts, Continue retryCount') =>
          let (acts', o) := Start_from cfg retryCount' rest in
          (acts ++ acts', o)
      end
  end.

(** [func (m *Monitor) Start() error]: [retryCount := 0], then the loop. *)
Definition Start (cfg : ReconnectConfig) (turns : list turn)
  : list action * outcome :=
  Start_from cfg 0 turns.

(** *** [Monitor.Stop]

    The fields of the [Monitor] that [Stop] and the start of [Start]
    touch. *)
Record Monitor := {
  running : bool;
  stopCh_closed : bool     (* [m.stopCh] has been closed *)
}.

(** [func NewMonitor(...) *Monitor] *)
Definition NewMonitor : Monitor :=
  {| running := false; stopCh_closed := false |}.

(** The first three lines of [Start]: [m.running = true] under the
    mutex. *)
Definition Start_enter (m : Monitor) : Monitor :=
  {| running := true; stopCh_closed := stopCh_closed m |}.

(** [func (m *Monitor) Stop()]; [None] is the panic of closing a closed
    channel. *)
Definition Stop (m : Monitor) : option Monitor :=
  if running m then
    if stopCh_closed m then None
    else Some {| running := false; stopCh_closed := true |}
  else Some m.

End monitor.

(** ** internal/tunnel *)

Module tunnel.
Import Go.

(** *** local.go: the relay primitive *)

(** [func isClosedError(err error) bool] *)
Definition isClosedError (err : option error) : bool :=
  match err with
  | None => false
  | Some io_EOF => true
  | Some net_ErrClosed => true
  | Some _ => false
  end.

(** The dynamic type behind a [net.Conn]: a [*net.TCPConn], or anything
    else (the channel connections of the SSH library are of the second
    kind). *)
Inductive conn_type : Type := TCPConn | OtherConn.

(** The two connections handed to [bidirectionalCopy]. *)
Inductive side : Type := Conn1 | Conn2.

Definition side_eqb (a b : side) : bool :=
  match a, b with
  | Conn1, Conn1 | Conn2, Conn2 => true
  | _, _ => false
  end.

Inductive relay_action : Type :=
| LogDebug (err : error)     (* [slog.Debug] of a relay failure *)
| CloseWrite (dst : side).   (* [tcpConn.CloseWrite()] *)

(** The body of [copyFunc(dst, src)] after its [io.Copy(dst, src)] has
    returned [copy_err]. *)
Definition copyFunc (dst : side) (dst_type : conn_type)
           (copy_err : option error) : list relay_action :=
  (match copy_err with
   | Some err => if negb (isClosedError copy_err) then [LogDebug err] else []
   | None => []
   end)
  ++
  (match dst_type with
   | TCPConn => [CloseWrite dst]
   | OtherConn => []
   end).

(** [bidirectionalCopy] runs two [copyFunc] goroutines and a third that
    closes [done] after [wg.Wait()], then blocks in
    [select { case <-ctx.Done(): case <-done: }].  What it observes is
    the order in which the copies end and the context is cancelled. *)
Inductive relay_event : Type :=
| CopyReturns (dst : side) (err : option error)
    (* [io.Copy(dst, src)] returns in the goroutine that writes to [dst] *)
| CtxDone.
    (* [ctx.Done()] is closed *)

Record relay := {
  wg : Z;                    (* counter of the [sync.WaitGroup] *)
  done : bool;               (* channel [done] is closed *)
  returned : bool;           (* [bidirectionalCopy] has returned *)
  log : list relay_action
}.

(** After [wg.Add(2)] and the three [go] statements. *)
Definition relay_init : relay :=
  {| wg := 2; done := false; returned := false; log := [] |}.

Definition relay_step (types : side -> conn_type) (st : relay)
           (ev : relay_event) : relay :=
  match ev with
  | CopyReturns dst err =>
      let wg' := wg st - 1 in                 (* deferred [wg.Done()] *)
      let done' := done st || (wg' =? 0) in   (* [wg.Wait(); close(done)] *)
      {| wg := wg';
         done := done';
         returned := returned st || done';    (* [case <-done:] *)
         log := log st ++ copyFunc dst (types dst) err |}
  | CtxDone =>
      {| wg := wg st;
         done := done st;
         returned := true;                    (* [case <-ctx.Done():] *)
         log := log st |}
  end.

Definition bidirectionalCopy (types : side -> conn_type)
           (events : list relay_event) : relay :=
  fold_left (relay_step types) events relay_init.

(** Each of the two copies returns once at most. *)
Definition copy_count (d : side) (events : list relay_event) : nat :=
  List.length
    (filter (fun ev => match ev with
                       | CopyReturns d' _ => side_eqb d d'
                       | CtxDone => false
                       end) events).

Definition well_formed (events : list relay_event) : Prop :=
  (copy_count Conn1 events <= 1)%nat /\ (copy_count Conn2 events <= 1)%nat.

Definition copied (d : side) (events : list relay_event) : Prop :=
  exists err, In (CopyReturns d err) events.

(** *** The accept loop of an endpoint

    [LocalTunnel.Start], [RemoteTunnel.Start] and [DynamicTunnel.Start]
    share one body: acquire the listener, then accept until the context
    is cancelled.  One turn of the loop sees whether the context is done
    at its top, what [Accept] gives, and, after an accept error, whether
    the context is done then. *)
Record accept_turn (conn : Type) := {
  done_at_top : bool;
  accepted : result conn;
  done_after_error : bool
}.
Arguments done_at_top {conn} a.
Arguments accepted {conn} a.
Arguments done_after_error {conn} a.

Inductive endpoint_action (conn : Type) : Type :=
| Handle (c : conn)          (* [t.wg.Add(1); go t.handleConnection(ctx, c)] *)
| WarnAccept (e : error).    (* [slog.Warn] of an accept error *)
Arguments Handle {conn} c.
Arguments WarnAccept {conn} e.

Inductive endpoint_end : Type :=
| Accepting                  (* blocked in, or about to call, [Accept] *)
| StartReturned (err : option error).

Fixpoint acceptLoop {conn : Type} (turns : list (accept_turn conn))
  : list (endpoint_action conn) * endpoint_end :=
  match turns with
  | [] => ([], Accepting)
  | t :: rest =>
      if done_at_top t then ([], StartReturned None)
      else
        match accepted t with
        | Err e =>
            if done_after_error t then ([], StartReturned None)
            else let (acts, o) := acceptLoop rest in
                 (WarnAccept e :: acts, o)
        | Ok c =>
            let (acts, o) := acceptLoop rest in
            (Handle c :: acts, o)
        end
  end.

(** [func (t *LocalTunnel) Start(ctx context.Context) error] and its two
    siblings; [listen] is the error of [net.Listen] (of
    [t.client.Listen] for a remote forward), returned wrapped. *)
Definition endpoint_Start {conn : Type} (listen : option error)
           (turns : list (accept_turn conn))
  : list (endpoint_action conn) * endpoint_end :=
  match listen with
  | Some e => ([], StartReturned (Some e))
  | None => acceptLoop turns
  end.

(** *** manager.go: the tunnel manager *)

(** The three implementations of the interface [Tunnel]. *)
Inductive Tunnel : Type :=
| LocalT (spec : config.LocalTunnel)
| RemoteT (spec : config.RemoteTunnel)
| DynamicT (spec : config.DynamicTunnel).

(** The method [Type()]. *)
Definition Tunnel_Type (t : Tunnel) : string :=
  match t with
  | LocalT _ => "local"
  | RemoteT _ => "remote"
  | DynamicT _ => "dynamic"
  end.

(** The slice [m.tunnels] that both variants of [Manager.Start] build
    before they launch the endpoints. *)
Definition buildTunnels (cfg : config.Config) : list Tunnel :=
  let tunnels := [] in
  let tunnels :=
    fold_left (fun acc spec => acc ++ [LocalT spec])
              (config.TunnelsLocal (config.Tunnels cfg)) tunnels in
  let tunnels :=
    fold_left (fun acc spec => acc ++ [RemoteT spec])
              (config.TunnelsRemote (config.Tunnels cfg)) tunnels in
  fold_left (fun acc spec => acc ++ [DynamicT spec])
            (config.TunnelsDynamic (config.Tunnels cfg)) tunnels.

(** *** dynamic.go: the SOCKS5 endpoint *)

Definition socks5Version : byte := x05.
Definition authNone : byte := x00.
Definition authNoAccept : byte := xff.
Definition cmdConnect : byte := x01.
Definition addrTypeIPv4 : byte := x01.
Definition addrTypeDomain : byte := x03.
Definition addrTypeIPv6 : byte := x04.
Definition repSuccess : byte := x00.
Definition repHostUnreach : byte := x04.
Definition repCmdNotSupported : byte := x07.
Definition repAddrNotSupported : byte := x08.

(** [net.TCPAddr]: [IP] is a byte slice, [None] when it is [nil]. *)
Record TCPAddr := {
  IP : option (list byte);
  Port : Z
}.

(** An accepted client connection: the bytes the client will still
    send (followed by end of stream), the bytes written to it so far,
    the error its [Write] answers with ([None] when writes succeed),
    and its local address. *)
Record Conn := {
  rd : list byte;
  wr : list byte;
  wr_err : option error;
  LocalAddr : TCPAddr
}.

(** The errors of the sub-protocol, one per [fmt.Errorf] site of
    [handshake] and [readRequest]. *)
Inductive socks_error : Type :=
| ErrReadHandshakeHeader (e : error)
| ErrUnsupportedVersion (v : byte)
| ErrReadMethods (e : error)
| ErrNoAuthNotOffered
| ErrConnWrite (e : error)         (* the error of [conn.Write], as is *)
| ErrReadRequestHeader (e : error)
| ErrInvalidVersion (v : byte)
| ErrUnsupportedCommand (v : byte)
| ErrReadIPv4 (e : error)
| ErrReadDomainLen (e : error)
| ErrReadDomain (e : error)
| ErrReadIPv6 (e : error)
| ErrUnsupportedAddrType (v : byte)
| ErrReadPort (e : error).

(** Code that reads and writes a connection and may fail: the
    connection is threaded through, an error ends the computation. *)
Definition io (A : Type) : Type := Conn -> (A + socks_error) * Conn.

Definition ret {A} (a : A) : io A := fun c => (inl a, c).

Definition fail {A} (e : socks_error) : io A := fun c => (inr e, c).

Definition bind {A B} (m : io A) (k : A -> io B) : io B :=
  fun c =>
    match m c with
    | (inl a, c') => k a c'
    | (inr e, c') => (inr e, c')
    end.

Notation "x <- m ;; k" := (bind m (fun x => k))
  (at level 61, m at next level, right associativity).

(** The connection once the client's pending bytes are [rest], and once
    [b] has been written to it. *)
Definition conn_read (c : Conn) (rest : list byte) : Conn :=
  {| rd := rest; wr := wr c; wr_err := wr_err c; LocalAddr := LocalAddr c |}.

Definition conn_written (c : Conn) (b : list byte) : Conn :=
  {| rd := rd c; wr := wr c ++ b; wr_err := wr_err c;
     LocalAddr := LocalAddr c |}.

(** [io.ReadFull(conn, buf)] with [len(buf) = n]: the next [n] bytes, or
    [io.EOF] when the stream has ended before the first of them and
    [io.ErrUnexpectedEOF] when it ends before the last. *)
Definition ReadFull (n : nat) (wrap : error -> socks_error)
  : io (list byte) :=
  fun c =>
    if (n <=? List.length (rd c))%nat
    then (inl (firstn n (rd c)), conn_read c (skipn n (rd c)))
    else (inr (wrap match rd c with
                    | [] => io_EOF
                    | _ :: _ => io_ErrUnexpectedEOF
                    end),
          conn_read c []).

(** [conn.Write(b)], giving its error. *)
Definition Write (b : list byte) : io (option error) :=
  fun c =>
    match wr_err c with
    | None => (inl None, conn_written c b)
    | Some e => (inl (Some e), c)
    end.

(** [func (t *DynamicTunnel) handshake(conn net.Conn) error] *)
Definition handshake : io unit :=
  header <- ReadFull 2 ErrReadHandshakeHeader ;;
  let h0 := nth 0 header x00 in
  let h1 := nth 1 header x00 in
  if negb (Byte.eqb h0 socks5Version)
  then fail (ErrUnsupportedVersion h0)
  else
    let numMethods := Byte.to_nat h1 in
    methods <- ReadFull numMethods ErrReadMethods ;;
    let hasNoAuth := existsb (fun m => Byte.eqb m authNone) methods in
    if negb hasNoAuth
    then
      _ <- Write [socks5Version; authNoAccept] ;;
      fail ErrNoAuthNotOffered
    else
      err <- Write [socks5Version; authNone] ;;
      match err with
      | None => ret tt
      | Some e => fail (ErrConnWrite e)
      end.

(** [net.IP.To4] of Go's standard library: a 4-byte address as it is,
    the last four bytes of a 16-byte IPv4-mapped address
    (ten zero bytes, then 0xff 0xff), [nil] otherwise. *)
Definition To4 (ip : list byte) : option (list byte) :=
  if (List.length ip =? 4)%nat then Some ip
  else if (List.length ip =? 16)%nat
          && forallb (Byte.eqb x00) (firstn 10 ip)
          && Byte.eqb (nth 10 ip x00) xff
          && Byte.eqb (nth 11 ip x00) xff
  then Some (skipn 12 ip)
  else None.

(** [net.IPv4zero.To4()] *)
Definition IPv4zero : list byte := [x00; x00; x00; x00].

(** [uint16(n)] of an [int]. *)
Definition uint16 (n : Z) : Z := n mod 65536.

(** [binary.BigEndian.PutUint16(buf, v)] into a 2-byte buffer. *)
Definition PutUint16 (v : Z) : list byte :=
  [byte_of_Z (Z.shiftr v 8); byte_of_Z v].

(** [binary.BigEndian.Uint16(buf)] *)
Definition Uint16 (buf : list byte) : Z :=
  Z.lor (Z.shiftl (Z_of_byte (nth 0 buf x00)) 8) (Z_of_byte (nth 1 buf x00)).

(** The slice [reply] of [sendReply] when it reaches
    [conn.Write(reply)]. *)
Definition replyBytes (rep : byte) (addr : option TCPAddr) : list byte :=
  let reply := [socks5Version; rep; x00; addrTypeIPv4] in
  match addr with
  | Some {| IP := Some addr_IP; Port := addr_Port |} =>
      let ip := match To4 addr_IP with
                | Some ip => ip
                | None => IPv4zero
                end in
      let reply := reply ++ ip in
      reply ++ PutUint16 (uint16 addr_Port)
  | _ =>
      reply ++ [x00; x00; x00; x00; x00; x00]
  end.

(** [func (t *DynamicTunnel) sendReply(conn net.Conn, rep byte, addr *net.TCPAddr)];
    the result of [conn.Write] is dropped. *)
Definition sendReply (rep : byte) (addr : option TCPAddr) : io unit :=
  _ <- Write (replyBytes rep addr) ;;
  ret tt.

Section Request.

(** The text that [net.IP.String] gives an address that is not
    IPv4-representable (for 16 bytes, an IPv6 literal); it belongs to
    Go's standard library. *)
Variable ipText : list byte -> string.

(** [net.IP(addr).String()]: dotted decimal whenever [To4] gives four
    bytes. *)
Definition IP_String (ip : list byte) : string :=
  match To4 ip with
  | Some [a; b; c; d] =>
      (fmt_d (Byte.to_N a) ++ "." ++ fmt_d (Byte.to_N b) ++ "."
       ++ fmt_d (Byte.to_N c) ++ "." ++ fmt_d (Byte.to_N d))%string
  | _ => ipText ip
  end.

(** The [switch addrType] of [readRequest]: the host, or the reply
    and the error of the [default] case. *)
Definition readHost (addrType : byte) : io string :=
  if Byte.eqb addrType addrTypeIPv4 then
    addr <- ReadFull 4 ErrReadIPv4 ;;
    ret (IP_String addr)
  else if Byte.eqb addrType addrTypeDomain then
    lenBuf <- ReadFull 1 ErrReadDomainLen ;;
    domain <- ReadFull (Byte.to_nat (nth 0 lenBuf x00)) ErrReadDomain ;;
    ret (string_of_list_byte domain)
  else if Byte.eqb addrType addrTypeIPv6 then
    addr <- ReadFull 16 ErrReadIPv6 ;;
    ret (IP_String addr)
  else
    _ <- sendReply repAddrNotSupported None ;;
    fail (ErrUnsupportedAddrType addrType).

(** [func (t *DynamicTunnel) readRequest(conn net.Conn) (string, error)] *)
Definition readRequest : io string :=
  header <- ReadFull 4 ErrReadRequestHeader ;;
  let h0 := nth 0 header x00 in
  let h1 := nth 1 header x00 in
  let h3 := nth 3 header x00 in
  if negb (Byte.eqb h0 socks5Version)
  then fail (ErrInvalidVersion h0)
  else if negb (Byte.eqb h1 cmdConnect)
  then
    _ <- sendReply repCmdNotSupported None ;;
    fail (ErrUnsupportedCommand h1)
  else
    host <- readHost h3 ;;
    portBuf <- ReadFull 2 ErrReadPort ;;
    let port := Uint16 portBuf in
    ret (host ++ ":" ++ fmt_d (Z.to_N port))%string.

(** The transport, as [handleConnection] uses it. *)
Variables sshConn netConn : Type.
Variable conn_Dial : sshConn -> string -> string -> result netConn.

(** How [handleConnection] leaves the client connection. *)
Inductive handled : Type :=
| HandshakeFailed (e : socks_error)
| RequestFailed (e : socks_error)
| DialFailed (e : error)
| Relaying (targetAddr : string) (remoteConn : netConn).
    (* [bidirectionalCopy(ctx, conn, remoteConn)] is entered *)

(** [func (t *DynamicTunnel) handleConnection(ctx context.Context, conn net.Conn)],
    up to the relay. *)
Definition handleConnection (client : ssh.Client sshConn) (conn : Conn)
  : handled * Conn :=
  match handshake conn with
  | (inr e, conn) => (HandshakeFailed e, conn)
  | (inl _, conn) =>
      match readRequest conn with
      | (inr e, conn) => (RequestFailed e, conn)
      | (inl targetAddr, conn) =>
          match fst (ssh.Dial conn_Dial client "tcp" targetAddr) with
          | Err e =>
              (DialFailed e, snd (sendReply repHostUnreach None conn))
          | Ok remoteConn =>
              let localAddr := LocalAddr conn in
              (Relaying targetAddr remoteConn,
               snd (sendReply repSuccess (Some localAddr) conn))
          end
      end
  end.

End Request.

Arguments HandshakeFailed {netConn} e.
Arguments RequestFailed {netConn} e.
Arguments DialFailed {netConn} e.
Arguments Relaying {netConn} targetAddr remoteConn.
Arguments handleConnection ipText {sshConn netConn} conn_Dial client conn.

End tunnel.

(** * Vocabulary of the properties *)

Import Go.

(** The number of doublings left in [calculateBackoff] when its loop
    counter is [i]. *)
Definition doublings (attempt i : Z) : Z := Z.max 0 (Z.min attempt 6 - i).

(** A turn of the monitor in which [Connect] fails and no stop request
    is seen. *)
Definition failing (t : monitor.turn) : Prop :=
  monitor.stop_pending t = false
  /\ monitor.stop_in_backoff t = false
  /\ monitor.connect t <> None.

(** The calls of [k] failed turns that each end in a backoff wait, the
    counter being [retryCount] before the first. *)
Fixpoint retries (interval retryCount : Z) (k : nat) : list monitor.action :=
  match k with
  | O => []
  | S k' =>
      monitor.Connect
        :: monitor.Backoff (monitor.calculateBackoff (retryCount + 1) interval)
        :: retries interval (retryCount + 1) k'
  end.

(** A budget of three retries, and a refused connection. *)
Definition budget3 : config.ReconnectConfig :=
  {| config.Enabled := true;
     config.Interval := 5 * Second;
     config.MaxRetries := 3 |}.

Definition refused (id : nat) : monitor.turn :=
  {| monitor.stop_pending := false;
     monitor.connect := Some (OtherError id);
     monitor.stop_in_backoff := false;
     monitor.tunnels := None;
     monitor.wakeup := None |}.

(** A client connection accepted on 127.0.0.1:1080 whose writes succeed
    and on which the client sends [bytes]. *)
Definition loopback : tunnel.TCPAddr :=
  {| tunnel.IP := Some [x7f; x00; x00; x01]; tunnel.Port := 1080 |}.

Definition client_sends (bytes : list byte) : tunnel.Conn :=
  {| tunnel.rd := bytes; tunnel.wr := []; tunnel.wr_err := None;
     tunnel.LocalAddr := loopback |}.

(** A stand-in for the text form of non-IPv4 addresses, transports that
    refuse or accept every dial, and a connected client. *)
Definition hex_ipText : list byte -> string :=
  fun ip => string_of_list_byte ip.

Definition refusing_dial : unit -> string -> string -> result unit :=
  fun _ _ _ => Err (OtherError 7).

Definition accepting_dial : unit -> string -> string -> result unit :=
  fun _ _ _ => Ok tt.

Definition connected : ssh.Client unit :=
  {| ssh.conn := Some tt; ssh.closed := false |}.

(** A computation on a connection that leaves its write status and its
    local address as they are. *)
Definition keeps {A} (m : tunnel.io A) : Prop :=
  forall c,
    tunnel.wr_err (snd (m c)) = tunnel.wr_err c
    /\ tunnel.LocalAddr (snd (m c)) = tunnel.LocalAddr c.

(** The number of copies that have returned, and whether the context
    has been cancelled, in a run of the relay. *)
Definition copies (events : list tunnel.relay_event) : nat :=
  (tunnel.copy_count tunnel.Conn1 events
   + tunnel.copy_count tunnel.Conn2 events)%nat.

Definition is_CtxDone (ev : tunnel.relay_event) : bool :=
  match ev with
  | tunnel.CtxDone => true
  | tunnel.CopyReturns _ _ => false
  end.

(** What one event adds to the log of the relay. *)
Definition logged (types : tunnel.side -> tunnel.conn_type)
           (ev : tunnel.relay_event) : list tunnel.relay_action :=
  match ev with
  | tunnel.CopyReturns dst err => tunnel.copyFunc dst (types dst) err
  | tunnel.CtxDone => []
  end.

(** The connections of a local forward: the accepted TCP connection and
    the channel opened through the transport. *)
Definition local_forward_types (d : tunnel.side) : tunnel.conn_type :=
  match d with
  | tunnel.Conn1 => tunnel.TCPConn
  | tunnel.Conn2 => tunnel.OtherConn
  end.

(** ** Vocabulary of the further properties *)

(** The phases of a session, as the calls of the monitor move through
    them. *)
Inductive phase : Type :=
| Down          (* no transport *)
| Dialled       (* [Connect] has been called *)
| Starting      (* the tunnel manager is being started *)
| Monitoring    (* keepalive runs, tunnels are up *)
| Stopping      (* tunnels stopped, transport still open *)
| Broken.       (* a call out of order *)

Definition phase_step (p : phase) (a : monitor.action) : phase :=
  match p, a with
  | Down, monitor.Connect => Dialled
  | Dialled, monitor.Backoff _ => Down
  | Dialled, monitor.TunnelStart => Starting
  | Starting, monitor.ClientClose => Down
  | Starting, monitor.StartKeepAlive _ => Monitoring
  | Monitoring, monitor.TunnelStop => Stopping
  | Stopping, monitor.ClientClose => Down
  | _, _ => Broken
  end.

Definition phase_after (p : phase) (trace : list monitor.action) : phase :=
  fold_left phase_step trace p.

(** A turn in which no stop request is seen. *)
Definition unstopped (t : monitor.turn) : Prop :=
  monitor.stop_pending t = false
  /\ monitor.stop_in_backoff t = false
  /\ monitor.wakeup t <> None.

Definition is_wait (a : monitor.action) : Prop :=
  exists d, a = monitor.Backoff d.

(** [strings.Join(parts, string(sep))]. *)
Fixpoint Join (parts : list string) (sep : ascii) : string :=
  match parts with
  | [] => EmptyString
  | [p] => p
  | p :: rest => (p ++ String sep (Join rest sep))%string
  end.

(** [strings.Count(s, string(c))]. *)
Fixpoint Count (s : string) (c : ascii) : nat :=
  match s with
  | EmptyString => O
  | String a r => ((if Ascii.eqb a c then 1 else 0) + Count r c)%nat
  end.

(** The calls that change a client, with what the outside answers. *)
Inductive client_op (sshConn : Type) : Type :=
| DoConnect (auth : option error) (dial : result sshConn)
| DoClose (close_err : option error).
Arguments DoConnect {sshConn} auth dial.
Arguments DoClose {sshConn} close_err.

Definition client_step {sshConn : Type} (c : ssh.Client sshConn)
           (op : client_op sshConn) : ssh.Client sshConn :=
  match op with
  | DoConnect auth dial => snd (ssh.Connect c auth dial)
  | DoClose close_err => snd (ssh.Close c close_err)
  end.

Definition client_after {sshConn : Type} (ops : list (client_op sshConn))
  : ssh.Client sshConn :=
  fold_left client_step ops ssh.NewClient.

(** The calls on a monitor, and the monitor after them ([None] when one
    of them panics). *)
Inductive monitor_call : Type := CallStart | CallStop.

Definition monitor_step (m : option monitor.Monitor) (call : monitor_call)
  : option monitor.Monitor :=
  match m, call with
  | None, _ => None
  | Some m, CallStart => Some (monitor.Start_enter m)
  | Some m, CallStop => monitor.Stop m
  end.

Definition monitor_after (calls : list monitor_call)
  : option monitor.Monitor :=
  fold_left monitor_step calls (Some monitor.NewMonitor).

Definition is_stop (call : monitor_call) : bool :=
  match call with
  | CallStop => true
  | CallStart => false
  end.

(** A [Stop] comes after the first [Start]. *)
Fixpoint stop_follows_start (calls : list monitor_call) : bool :=
  match calls with
  | [] => false
  | CallStart :: rest => existsb is_stop rest
  | CallStop :: rest => stop_follows_start rest
  end.

Definition starts (calls : list monitor_call) : nat :=
  List.length (filter (fun c => match c with
                                | CallStart => true
                                | CallStop => false
                                end) calls).

(** A turn of the accept loop in which the endpoint sees the
    cancellation. *)
Definition sees_cancel {conn : Type} (t : tunnel.accept_turn conn) : bool :=
  tunnel.done_at_top t
  || match tunnel.accepted t with
     | Err _ => tunnel.done_after_error t
     | Ok _ => false
     end.

(** The turns before the first that sees the cancellation. *)
Fixpoint served {conn : Type} (turns : list (tunnel.accept_turn conn))
  : list (tunnel.accept_turn conn) :=
  match turns with
  | [] => []
  | t :: rest => if sees_cancel t then [] else t :: served rest
  end.

Definition accepted_conns {conn : Type}
           (turns : list (tunnel.accept_turn conn)) : list conn :=
  flat_map (fun t => match tunnel.accepted t with
                     | Ok c => [c]
                     | Err _ => []
                     end) turns.

Definition handled_conns {conn : Type}
           (acts : list (tunnel.endpoint_action conn)) : list conn :=
  flat_map (fun a => match a with
                     | tunnel.Handle c => [c]
                     | tunnel.WarnAccept _ => []
                     end) acts.

(** A scanner that reads plain decimal text, a home directory, and a
    path join with slashes, to run the configuration code on. *)
Definition scan_decimal (text : string) : option Z :=
  option_map (fun d => Z.of_N (N.of_uint d)) (NilEmpty.uint_of_string text).

Definition home_alice : result string := Ok "/home/alice".

Definition join_slash (parts : list string) : string := Join parts "/".

Definition sample_config : config.Config :=
  {| config.Server := {| config.Host := "example.org"; config.Port := 2222;
                         config.User := "alice" |};
     config.Auth := {| config.AuthType := "key"; config.Password := "";
                       config.KeyFile := ""; config.Passphrase := "" |};
     config.Tunnels :=
       {| config.TunnelsLocal :=
            [{| config.LBind := "127.0.0.1:8080";
                config.LTarget := "localhost:80" |}];
          config.TunnelsRemote := [];
          config.TunnelsDynamic := [{| config.DBind := "127.0.0.1:1080" |}] |};
     config.Reconnect := budget3;
     config.LogLevel := "info" |}.

(** A turn of the monitor in which the connection holds until the
    keepalive fails. *)
Definition dropped (id : nat) : monitor.turn :=
  {| monitor.stop_pending := false;
     monitor.connect := None;
     monitor.stop_in_backoff := false;
     monitor.tunnels := None;
     monitor.wakeup := Some (OtherError id) |}.

(** Retries without a budget. *)
Definition unbounded : config.ReconnectConfig :=
  {| config.Enabled := true;
     config.Interval := 5 * Second;
     config.MaxRetries := 0 |}.

(** * Properties *)

(** ** 64-bit arithmetic *)

Lemma wrap64_id z : int64 z -> wrap64 z = z.
Proof.
  unfold int64, wrap64. intros H.
  rewrite Z.mod_small; lia.
Qed.

Lemma wrap64_int64 z : int64 (wrap64 z).
Proof.
  unfold int64, wrap64.
  pose proof (Z.mod_pos_bound (z + 2 ^ 63) (2 ^ 64) ltac:(lia)). lia.
Qed.

Lemma wrap64_mul_l x y : wrap64 (wrap64 x * y) = wrap64 (x * y).
Proof.
  unfold wrap64. f_equal.
  replace (((x + 2 ^ 63) mod 2 ^ 64 - 2 ^ 63) * y + 2 ^ 63)
    with ((x + 2 ^ 63) mod 2 ^ 64 * y + (2 ^ 63 - 2 ^ 63 * y)) by ring.
  rewrite <- Z.add_mod_idemp_l by lia.
  rewrite Z.mul_mod_idemp_l by lia.
  rewrite Z.add_mod_idemp_l by lia.
  f_equal. ring.
Qed.

(** ** The backoff delay *)

Section Backoff.
Import monitor.

(** The loop multiplies by a power of two, modulo 2^64. *)
Lemma backoff_loop_wrap attempt backoff i :
  wrap64 (backoff_loop attempt backoff i)
  = wrap64 (backoff * 2 ^ doublings attempt i).
Proof.
  functional induction (backoff_loop attempt backoff i).
  - match goal with
    | Hc : _ && _ = true |- _ => apply andb_prop in Hc as [H1 H2]
    end.
    apply Z.ltb_lt in H1. apply Z.ltb_lt in H2.
    rewrite IHz, wrap64_mul_l. f_equal.
    unfold doublings.
    replace (Z.max 0 (Z.min attempt 6 - i))
      with (1 + Z.max 0 (Z.min attempt 6 - (i + 1))) by lia.
    rewrite Z.pow_add_r by lia. ring.
  - assert (doublings attempt i = 0) as ->.
    { match goal with
      | Hc : _ && _ = false |- _ =>
          apply andb_false_iff in Hc as [H | H]; apply Z.ltb_ge in H
      end; unfold doublings; lia. }
    f_equal. ring.
Qed.

Lemma backoff_loop_int64 attempt backoff i :
  int64 backoff -> int64 (backoff_loop attempt backoff i).
Proof.
  functional induction (backoff_loop attempt backoff i); intros H; auto.
  apply IHz, wrap64_int64.
Qed.

Lemma backoff_loop_exact attempt backoff i :
  int64 backoff ->
  backoff_loop attempt backoff i
  = wrap64 (backoff * 2 ^ doublings attempt i).
Proof.
  intros H. rewrite <- backoff_loop_wrap.
  symmetry. apply wrap64_id, backoff_loop_int64, H.
Qed.

Lemma doublings_first attempt :
  1 <= attempt -> doublings attempt 1 = Z.min (attempt - 1) 5.
Proof. unfold doublings. lia. Qed.

(** Whatever the base interval, the delay is the wrapped product,
    capped at 60 seconds. *)
Lemma calculateBackoff_wrap attempt baseInterval :
  1 <= attempt -> int64 baseInterval ->
  calculateBackoff attempt baseInterval
  = Z.min (wrap64 (baseInterval * 2 ^ Z.min (attempt - 1) 5)) (60 * Second).
Proof.
  intros Ha Hb. unfold calculateBackoff.
  rewrite backoff_loop_exact, doublings_first by assumption.
  cbv zeta.
  destruct (Z.gtb_spec (wrap64 (baseInterval * 2 ^ Z.min (attempt - 1) 5))
                       (60 * Second)); lia.
Qed.

End Backoff.

(** C1 (as stated, refuted): for a base interval of 2^62 ns, which a
    [time.Duration] can hold, the second attempt doubles it past the
    64-bit range: the code answers a negative delay where the formula
    gives 60 seconds. *)
Lemma calculateBackoff_overflow :
  int64 (2 ^ 62) /\
  monitor.calculateBackoff 2 (2 ^ 62)
  <> Z.min (2 ^ 62 * 2 ^ Z.min (2 - 1) 5) (60 * Second).
Proof.
  split.
  - unfold int64. lia.
  - vm_compute. discriminate.
Qed.

(** C1 (amended): for every retry attempt n >= 1 and every base interval
    b whose product b * 2^(min(n-1, 5)) fits a 64-bit [time.Duration],
    the backoff delay before the n-th reconnect attempt is
    min(b * 2^(min(n-1, 5)), 60 seconds); for b = 5s the delays of
    attempts 1 to 7 are 5s, 10s, 20s, 40s, 60s, 60s, 60s. *)
Theorem calculateBackoff_spec :
  (forall n b,
      1 <= n ->
      int64 (b * 2 ^ Z.min (n - 1) 5) ->
      monitor.calculateBackoff n b
      = Z.min (b * 2 ^ Z.min (n - 1) 5) (60 * Second))
  /\ map (fun n => monitor.calculateBackoff n (5 * Second)) [1; 2; 3; 4; 5; 6; 7]
     = map (fun s => s * Second) [5; 10; 20; 40; 60; 60; 60].
Proof.
  split.
  - intros n b Hn Hfit.
    assert (Hb : int64 b).
    { unfold int64 in *.
      assert (1 <= 2 ^ Z.min (n - 1) 5) by (apply Z.pow_le_mono_r with (b := 0); lia).
      nia. }
    rewrite calculateBackoff_wrap by assumption.
    now rewrite wrap64_id.
  - vm_compute. reflexivity.
Qed.

Lemma calculateBackoff_spec_witness :
  1 <= 3 /\ int64 (7 * Second * 2 ^ Z.min (3 - 1) 5) /\
  monitor.calculateBackoff 3 (7 * Second) = 28 * Second.
Proof.
  assert (H1 : 1 <= 3) by lia.
  assert (H2 : int64 (7 * Second * 2 ^ Z.min (3 - 1) 5))
    by (unfold int64; vm_compute; split; [discriminate | reflexivity]).
  split; [exact H1 | split; [exact H2 |]].
  rewrite (proj1 calculateBackoff_spec 3 (7 * Second) H1 H2).
  vm_compute. reflexivity.
Defined.

(** ** The reconnect loop *)

Section RetryBudget.
Import config monitor.

Variable cfg : ReconnectConfig.
Hypothesis enabled : Enabled cfg = true.
Hypothesis budget : 0 < MaxRetries cfg.
Hypothesis budget_int : int64 (MaxRetries cfg).

Lemma failing_turn_below retryCount t :
  0 <= retryCount -> retryCount + 1 < MaxRetries cfg -> failing t ->
  loop_body cfg retryCount t
  = ([Connect; Backoff (calculateBackoff (retryCount + 1) (Interval cfg))],
     Continue (retryCount + 1)).
Proof.
  intros H0 Hlt (Hs & Hb & Hc). unfold loop_body.
  rewrite Hs, enabled, Hb.
  destruct (connect t) as [err |]; [| congruence]. cbn [negb].
  rewrite wrap64_id by (unfold int64 in *; lia).
  replace (retryCount + 1 >=? MaxRetries cfg) with false
    by (symmetry; rewrite Z.geb_leb; apply Z.leb_gt; lia).
  now rewrite andb_false_r.
Qed.

Lemma failing_turn_last retryCount t :
  0 <= retryCount -> retryCount + 1 = MaxRetries cfg -> failing t ->
  loop_body cfg retryCount t = ([Connect], Return (connect t)).
Proof.
  intros H0 Heq (Hs & Hb & Hc). unfold loop_body.
  rewrite Hs, enabled.
  destruct (connect t) as [err |]; [| congruence]. cbn [negb].
  rewrite wrap64_id by (unfold int64 in *; lia).
  replace (MaxRetries cfg >? 0) with true
    by (symmetry; rewrite Z.gtb_ltb; apply Z.ltb_lt; lia).
  replace (retryCount + 1 >=? MaxRetries cfg) with true
    by (symmetry; rewrite Z.geb_leb; apply Z.leb_le; lia).
  reflexivity.
Qed.

(** Fewer failures than the budget: the loop is still running. *)
Lemma Start_from_below turns : forall retryCount,
  0 <= retryCount ->
  Forall failing turns ->
  retryCount + Z.of_nat (List.length turns) < MaxRetries cfg ->
  Start_from cfg retryCount turns
  = (retries (Interval cfg) retryCount (List.length turns),
     Running (retryCount + Z.of_nat (List.length turns))).
Proof.
  induction turns as [| t rest IH]; intros rc H0 Hall Hlt.
  - cbn. now rewrite Z.add_0_r.
  - inversion Hall as [| ? ? Ht Hrest]; subst.
    cbn [Start_from List.length retries].
    cbn [List.length] in Hlt. rewrite Nat2Z.inj_succ in *.
    rewrite failing_turn_below by (assumption || lia).
    rewrite IH by (assumption || lia).
    cbn [app]. do 2 f_equal. lia.
Qed.

(** The failure that brings the counter to the budget ends the loop. *)
Lemma Start_from_exhaust turns : forall retryCount t,
  0 <= retryCount ->
  Forall failing turns -> failing t ->
  retryCount + Z.of_nat (List.length turns) + 1 = MaxRetries cfg ->
  Start_from cfg retryCount (turns ++ [t])
  = (retries (Interval cfg) retryCount (List.length turns) ++ [Connect],
     Returned (connect t)).
Proof.
  induction turns as [| u rest IH]; intros rc t H0 Hall Ht Heq.
  - cbn [app Start_from List.length retries].
    cbn [List.length Z.of_nat] in Heq.
    rewrite failing_turn_last by (assumption || lia). reflexivity.
  - inversion Hall as [| ? ? Hu Hrest]; subst.
    cbn [app Start_from List.length retries].
    cbn [List.length] in Heq. rewrite Nat2Z.inj_succ in Heq.
    rewrite failing_turn_below by (assumption || lia).
    rewrite IH by (assumption || lia).
    reflexivity.
Qed.

End RetryBudget.

(** C2: with reconnection enabled and a retry budget m > 0, a run of
    [Start] that meets only connect failures is still looping, in its
    backoff waits, after fewer than m of them, and returns the error of
    the m-th failure without a further backoff wait; with reconnection
    disabled the first connect failure is returned; a successful connect
    puts [retryCount] back to 0. *)
Theorem monitor_retry_budget (cfg : config.ReconnectConfig) :
  (config.Enabled cfg = true ->
   0 < config.MaxRetries cfg -> int64 (config.MaxRetries cfg) ->
   forall (before : list monitor.turn) (t : monitor.turn),
     Forall failing before -> failing t ->
     Z.of_nat (List.length before) + 1 = config.MaxRetries cfg ->
     monitor.Start cfg before
     = (retries (config.Interval cfg) 0 (List.length before),
        monitor.Running (Z.of_nat (List.length before)))
     /\ monitor.Start cfg (before ++ [t])
        = (retries (config.Interval cfg) 0 (List.length before)
             ++ [monitor.Connect],
           monitor.Returned (monitor.connect t)))
  /\ (config.Enabled cfg = false ->
      forall retryCount t rest err,
        monitor.stop_pending t = false ->
        monitor.connect t = Some err ->
        monitor.Start_from cfg retryCount (t :: rest)
        = ([monitor.Connect], monitor.Returned (Some err)))
  /\ (forall retryCount t retryCount',
        monitor.stop_pending t = false ->
        monitor.connect t = None ->
        snd (monitor.loop_body cfg retryCount t) = monitor.Continue retryCount' ->
        retryCount' = 0).
Proof.
  split; [| split].
  - intros He Hm Hi before t Hall Ht Hlen. split.
    + unfold monitor.Start.
      rewrite (Start_from_below cfg He Hi before 0) by (assumption || lia).
      reflexivity.
    + unfold monitor.Start.
      apply (Start_from_exhaust cfg He Hm Hi before 0 t); assumption || lia.
  - intros He rc t rest err Hs Hc.
    cbn [monitor.Start_from]. unfold monitor.loop_body.
    now rewrite Hs, Hc, He.
  - intros rc t rc' Hs Hc. unfold monitor.loop_body.
    rewrite Hs, Hc.
    destruct (monitor.tunnels t); [cbn; congruence |].
    destruct (monitor.wakeup t); [| cbn; congruence].
    destruct (negb (config.Enabled cfg)); cbn; congruence.
Qed.

Lemma refused_failing id : failing (refused id).
Proof. repeat split; discriminate. Defined.

Lemma monitor_retry_budget_witness :
  (config.Enabled budget3 = true /\ 0 < config.MaxRetries budget3
   /\ int64 (config.MaxRetries budget3)
   /\ Forall failing [refused 1; refused 2] /\ failing (refused 3))
  /\ monitor.Start budget3 [refused 1; refused 2]
     = ([monitor.Connect; monitor.Backoff (5 * Second);
         monitor.Connect; monitor.Backoff (10 * Second)],
        monitor.Running 2)
  /\ monitor.Start budget3 [refused 1; refused 2; refused 3]
     = ([monitor.Connect; monitor.Backoff (5 * Second);
         monitor.Connect; monitor.Backoff (10 * Second);
         monitor.Connect],
        monitor.Returned (Some (OtherError 3))).
Proof.
  assert (He : config.Enabled budget3 = true) by reflexivity.
  assert (Hm : 0 < config.MaxRetries budget3) by (cbn; lia).
  assert (Hi : int64 (config.MaxRetries budget3))
    by (unfold int64; cbn; lia).
  assert (Hall : Forall failing [refused 1; refused 2])
    by (repeat constructor; discriminate).
  assert (Ht : failing (refused 3)) by apply refused_failing.
  split; [repeat split; assumption || discriminate |].
  exact (proj1 (monitor_retry_budget budget3) He Hm Hi
               [refused 1; refused 2] (refused 3) Hall Ht eq_refl).
Defined.


(** ** The SOCKS5 sub-protocol *)

Section Socks5IO.
Import tunnel.

Lemma byte_eqb_refl (b : byte) : Byte.eqb b b = true.
Proof. now apply Byte.byte_dec_lb. Qed.

Lemma byte_eqb_neq (a b : byte) : a <> b -> Byte.eqb a b = false.
Proof.
  intros H. destruct (Byte.eqb a b) eqn:E; [| reflexivity].
  now apply Byte.byte_dec_bl in E.
Qed.

Lemma existsb_authNone methods :
  existsb (fun m => Byte.eqb m authNone) methods = true <-> In authNone methods.
Proof.
  rewrite existsb_exists. split.
  - intros (m & Hin & Hm). apply Byte.byte_dec_bl in Hm. now subst.
  - intros Hin. exists authNone. split; [assumption | apply byte_eqb_refl].
Qed.

(** The connection after [n] more bytes have been read from it. *)
Lemma ReadFull_ok n wrap c bs rest :
  rd c = bs ++ rest -> List.length bs = n ->
  ReadFull n wrap c = (inl bs, conn_read c rest).
Proof.
  intros Hrd Hlen. unfold ReadFull, conn_read. rewrite Hrd.
  replace (n <=? List.length (bs ++ rest))%nat with true
    by (symmetry; apply Nat.leb_le; rewrite length_app; lia).
  subst n.
  rewrite firstn_app, skipn_app, Nat.sub_diag, firstn_all, skipn_all.
  cbn [firstn skipn app]. now rewrite app_nil_r.
Qed.

Lemma Write_ok b c :
  wr_err c = None -> Write b c = (inl None, conn_written c b).
Proof. intros H. unfold Write. now rewrite H. Qed.

End Socks5IO.

Section Handshake.
Import tunnel.

Variable ipText : list byte -> string.
Variables sshConn netConn : Type.
Variable conn_Dial : sshConn -> string -> string -> result netConn.
Variable client : ssh.Client sshConn.

Lemma handleConnection_handshake_failed c e c' :
  handshake c = (inr e, c') ->
  handleConnection ipText conn_Dial client c = (HandshakeFailed e, c').
Proof. intros H. unfold handleConnection. now rewrite H. Qed.

Lemma handleConnection_handshake_passed c c' e :
  handshake c = (inl tt, c') ->
  fst (handleConnection ipText conn_Dial client c) <> HandshakeFailed e.
Proof.
  intros H. unfold handleConnection. rewrite H.
  destruct (readRequest ipText c') as [[target | e'] c''];
    [| cbn; discriminate].
  destruct (fst (ssh.Dial conn_Dial client "tcp" target)); cbn; discriminate.
Qed.

End Handshake.



(** ** The SOCKS5 request *)

Lemma Z_of_byte_range b : 0 <= Z_of_byte b < 256.
Proof.
  unfold Z_of_byte. pose proof (Byte.to_N_bounded b). lia.
Qed.

Lemma lor_shiftl_8 hi lo :
  0 <= lo < 256 -> Z.lor (Z.shiftl hi 8) lo = 256 * hi + lo.
Proof.
  intros Hlo.
  assert (Hland : Z.land (Z.shiftl hi 8) lo = 0).
  { apply Z.bits_inj'. intros k Hk.
    rewrite Z.land_spec, Z.bits_0.
    destruct (Z.ltb_spec k 8).
    - rewrite Z.shiftl_spec_low by lia. reflexivity.
    - replace lo with (lo mod 2 ^ 8) by (apply Z.mod_small; lia).
      rewrite Z.mod_pow2_bits_high by lia. apply andb_false_r. }
  pose proof (Z.add_lor_land (Z.shiftl hi 8) lo) as H.
  rewrite Hland in H. rewrite Z.shiftl_mul_pow2 in H |- * by lia.
  change (2 ^ 8) with 256 in *. lia.
Qed.

Section RequestProps.
Import tunnel.

(** The port is read big-endian. *)
Lemma Uint16_big_endian p1 p2 :
  Uint16 [p1; p2] = 256 * Z_of_byte p1 + Z_of_byte p2.
Proof.
  unfold Uint16. cbn [nth]. apply lor_shiftl_8, Z_of_byte_range.
Qed.

Variable ipText : list byte -> string.

Lemma sendReply_ok rep addr c :
  wr_err c = None ->
  sendReply rep addr c = (inl tt, conn_written c (replyBytes rep addr)).
Proof.
  intros H. unfold sendReply, bind, ret. now rewrite Write_ok.
Qed.

Lemma IP_String_v4 a b c d :
  IP_String ipText [a; b; c; d]
  = (fmt_d (Byte.to_N a) ++ "." ++ fmt_d (Byte.to_N b) ++ "."
     ++ fmt_d (Byte.to_N c) ++ "." ++ fmt_d (Byte.to_N d))%string.
Proof. reflexivity. Qed.

(** C4 (amended): the request reader takes a 4-byte header (version,
    command, reserved, address type).  A version other than 0x05 ends
    the connection with no reply.  With version 0x05, a command other
    than 0x01 (CONNECT) is answered with reply code 0x07 and ends the
    connection; with CONNECT, address type 0x01 decodes 4 raw bytes to a
    dotted-decimal string, 0x03 decodes a length byte and that many
    bytes to a domain string (not resolved), 0x04 decodes 16 raw bytes
    with [net.IP.String], and any other address type is answered with
    reply code 0x08 and ends the connection; then 2 bytes are read as a
    big-endian port and the result is the string host:port. *)
Theorem readRequest_spec (c : Conn) (v cmd rsv atyp : byte) (tail : list byte) :
  rd c = v :: cmd :: rsv :: atyp :: tail ->
  wr_err c = None ->
  (v <> socks5Version ->
   readRequest ipText c = (inr (ErrInvalidVersion v), conn_read c tail))
  /\ (v = socks5Version -> cmd <> cmdConnect ->
      readRequest ipText c
      = (inr (ErrUnsupportedCommand cmd),
         conn_written (conn_read c tail)
                      [x05; x07; x00; x01; x00; x00; x00; x00; x00; x00]))
  /\ (v = socks5Version -> cmd = cmdConnect ->
      (atyp = addrTypeIPv4 ->
       forall a b c4 d p1 p2 rest,
         tail = [a; b; c4; d; p1; p2] ++ rest ->
         readRequest ipText c
         = (inl ((fmt_d (Byte.to_N a) ++ "." ++ fmt_d (Byte.to_N b) ++ "."
                  ++ fmt_d (Byte.to_N c4) ++ "." ++ fmt_d (Byte.to_N d))
                 ++ ":"
                 ++ fmt_d (Z.to_N (256 * Z_of_byte p1 + Z_of_byte p2)))%string,
            conn_read c rest))
      /\ (atyp = addrTypeDomain ->
          forall len domain p1 p2 rest,
            tail = len :: domain ++ [p1; p2] ++ rest ->
            List.length domain = Byte.to_nat len ->
            readRequest ipText c
            = (inl (string_of_list_byte domain ++ ":"
                    ++ fmt_d (Z.to_N (256 * Z_of_byte p1 + Z_of_byte p2)))%string,
               conn_read c rest))
      /\ (atyp = addrTypeIPv6 ->
          forall addr p1 p2 rest,
            tail = addr ++ [p1; p2] ++ rest ->
            List.length addr = 16%nat ->
            readRequest ipText c
            = (inl (IP_String ipText addr ++ ":"
                    ++ fmt_d (Z.to_N (256 * Z_of_byte p1 + Z_of_byte p2)))%string,
               conn_read c rest))
      /\ (atyp <> addrTypeIPv4 -> atyp <> addrTypeDomain ->
          atyp <> addrTypeIPv6 ->
          readRequest ipText c
          = (inr (ErrUnsupportedAddrType atyp),
             conn_written (conn_read c tail)
                          [x05; x08; x00; x01; x00; x00; x00; x00; x00; x00]))).
Proof.
  intros Hrd Hw.
  assert (Hhead : ReadFull 4 ErrReadRequestHeader c
                  = (inl [v; cmd; rsv; atyp], conn_read c tail))
    by (apply ReadFull_ok; [exact Hrd | reflexivity]).
  assert (Hport : forall p1 p2 rest,
             ReadFull 2 ErrReadPort (conn_read c ([p1; p2] ++ rest))
             = (inl [p1; p2], conn_read c rest)).
  { intros. now rewrite (ReadFull_ok 2 _ _ [p1; p2] rest). }
  split; [| split].
  - intros Hv. unfold readRequest, bind. rewrite Hhead. cbn [nth].
    now rewrite (byte_eqb_neq _ _ Hv).
  - intros -> Hcmd. unfold readRequest, bind. rewrite Hhead. cbn [nth].
    rewrite byte_eqb_refl, (byte_eqb_neq _ _ Hcmd). cbn [negb].
    now rewrite sendReply_ok.
  - intros -> ->.
    assert (Hreq : readRequest ipText c
                   = bind (readHost ipText atyp)
                          (fun host =>
                             bind (ReadFull 2 ErrReadPort)
                                  (fun portBuf =>
                                     ret (host ++ ":"
                                          ++ fmt_d (Z.to_N (Uint16 portBuf)))%string))
                          (conn_read c tail)).
    { unfold readRequest at 1. unfold bind at 1. rewrite Hhead. cbn [nth].
      now rewrite !byte_eqb_refl. }
    rewrite Hreq. clear Hreq Hhead.
    split; [| split; [| split]].
    + intros -> a b c4 d p1 p2 rest ->.
      unfold bind, readHost. rewrite byte_eqb_refl. unfold bind.
      rewrite (ReadFull_ok 4 _ (conn_read c _) [a; b; c4; d] ([p1; p2] ++ rest))
        by reflexivity.
      unfold ret. change (conn_read (conn_read c ?x) ?y) with (conn_read c y).
      rewrite Hport, Uint16_big_endian. reflexivity.
    + intros -> len domain p1 p2 rest -> Hlen.
      unfold bind, readHost.
      rewrite (byte_eqb_neq addrTypeDomain addrTypeIPv4) by discriminate.
      rewrite byte_eqb_refl. unfold bind.
      rewrite (ReadFull_ok 1 _ (conn_read c _) [len] (domain ++ [p1; p2] ++ rest))
        by reflexivity.
      cbn [nth].
      rewrite (ReadFull_ok (Byte.to_nat len) _ _ domain ([p1; p2] ++ rest))
        by (reflexivity || assumption).
      unfold ret. change (conn_read (conn_read ?k ?x) ?y) with (conn_read k y).
      change (conn_read (conn_read ?k ?x) ?y) with (conn_read k y).
      rewrite Hport, Uint16_big_endian. reflexivity.
    + intros -> addr p1 p2 rest -> Hlen.
      unfold bind, readHost.
      rewrite (byte_eqb_neq addrTypeIPv6 addrTypeIPv4) by discriminate.
      rewrite (byte_eqb_neq addrTypeIPv6 addrTypeDomain) by discriminate.
      rewrite byte_eqb_refl. unfold bind.
      rewrite (ReadFull_ok 16 _ (conn_read c _) addr ([p1; p2] ++ rest))
        by (reflexivity || assumption).
      unfold ret. change (conn_read (conn_read ?k ?x) ?y) with (conn_read k y).
      rewrite Hport, Uint16_big_endian. reflexivity.
    + intros H4 Hd H6.
      unfold bind, readHost.
      rewrite (byte_eqb_neq _ _ H4), (byte_eqb_neq _ _ Hd), (byte_eqb_neq _ _ H6).
      unfold bind. now rewrite sendReply_ok.
Qed.

End RequestProps.

(** C4 (as stated, refuted): a request whose command byte is 0x02 (BIND)
    but whose version byte is 0x04 gets no reply at all; the version
    check comes before the command check. *)
Lemma readRequest_version_first :
  let c := client_sends [x04; x02; x00; x01; x0a; x00; x00; x01; x1f; x90] in
  nth 1 (tunnel.rd c) x00 <> tunnel.cmdConnect
  /\ tunnel.readRequest hex_ipText c
     = (inr (tunnel.ErrInvalidVersion x04),
        tunnel.conn_read c [x0a; x00; x00; x01; x1f; x90])
  /\ tunnel.wr (snd (tunnel.readRequest hex_ipText c)) = [].
Proof.
  cbv zeta. split; [discriminate |]. split; reflexivity.
Qed.

Lemma readRequest_spec_witness :
  let c := client_sends [x05; x01; x00; x01; x0a; x00; x00; x01; x1f; x90] in
  tunnel.rd c = [x05; x01; x00; x01; x0a; x00; x00; x01; x1f; x90]
  /\ tunnel.wr_err c = None
  /\ tunnel.readRequest hex_ipText c
     = (inl "10.0.0.1:8080"%string, tunnel.conn_read c []).
Proof.
  intros c. split; [reflexivity |]. split; [reflexivity |].
  exact (proj1 (proj2 (proj2 (readRequest_spec hex_ipText c x05 x01 x00 x01
                                               _ eq_refl eq_refl))
                      eq_refl eq_refl)
               eq_refl x0a x00 x00 x01 x1f x90 [] eq_refl).
Defined.

(** ** The SOCKS5 replies *)

Lemma Z_of_byte_of_Z z : Z_of_byte (byte_of_Z z) = z mod 256.
Proof.
  unfold Z_of_byte, byte_of_Z.
  pose proof (Z.mod_pos_bound z 256 ltac:(lia)) as Hz.
  pose proof (Byte.to_of_N_option_map (Z.to_N (z mod 256))) as H.
  replace (Z.to_N (z mod 256) <=? 255)%N with true in H
    by (symmetry; apply N.leb_le; lia).
  destruct (Byte.of_N (Z.to_N (z mod 256))) as [b |]; [| discriminate].
  cbn in H. injection H as ->. lia.
Qed.

Section Replies.
Import tunnel.

Lemma To4_length ip ip4 : To4 ip = Some ip4 -> List.length ip4 = 4%nat.
Proof.
  unfold To4. destruct (Nat.eqb_spec (List.length ip) 4) as [H4 | _].
  - now intros [= <-].
  - destruct (Nat.eqb_spec (List.length ip) 16) as [H16 | _];
      [| discriminate].
    cbn [andb].
    destruct (forallb _ _ && _ && _); [| discriminate].
    intros E. assert (E' : ip4 = skipn 12 ip) by congruence.
    rewrite E', length_skipn. lia.
  Qed.

Lemma PutUint16_big_endian v :
  0 <= v < 65536 ->
  exists p1 p2,
    PutUint16 v = [p1; p2] /\ 256 * Z_of_byte p1 + Z_of_byte p2 = v.
Proof.
  intros Hv. unfold PutUint16. do 2 eexists. split; [reflexivity |].
  rewrite !Z_of_byte_of_Z, Z.shiftr_div_pow2 by lia.
  change (2 ^ 8) with 256.
  rewrite (Z.mod_small (v / 256)) by
      (split; [apply Z.div_pos; lia | apply Z.div_lt_upper_bound; lia]).
  pose proof (Z.div_mod v 256 ltac:(lia)). lia.
Qed.

Lemma replyBytes_shape rep addr :
  exists a b c d p1 p2,
    replyBytes rep addr = [x05; rep; x00; x01; a; b; c; d; p1; p2].
Proof.
  unfold replyBytes.
  destruct addr as [[[ip |] port] |]; [| repeat eexists ..].
  assert (H : exists a b c d,
             match To4 ip with Some ip4 => ip4 | None => IPv4zero end
             = [a; b; c; d]).
  { destruct (To4 ip) as [ip4 |] eqn:E; [| repeat eexists].
    apply To4_length in E.
    destruct ip4 as [| a [| b [| c [| d [| ? ?]]]]]; try discriminate.
    repeat eexists. }
  destruct H as (a & b & c & d & ->). repeat eexists.
Qed.

(** Reading and writing leave the connection's write status and local
    address as they are. *)
Lemma keeps_ret A (a : A) : keeps (ret a).
Proof. intros c. now split. Qed.

Lemma keeps_fail A e : keeps (@fail A e).
Proof. intros c. now split. Qed.

Lemma keeps_bind A B (m : io A) (k : A -> io B) :
  keeps m -> (forall a, keeps (k a)) -> keeps (bind m k).
Proof.
  intros Hm Hk c. unfold bind. specialize (Hm c).
  destruct (m c) as [[a | e] c']; cbn [snd] in *; [| exact Hm].
  specialize (Hk a c'). destruct Hk as [-> ->]. exact Hm.
Qed.

Lemma keeps_ReadFull n wrap : keeps (ReadFull n wrap).
Proof.
  intros c. unfold ReadFull.
  destruct (n <=? List.length (rd c))%nat; split; reflexivity.
Qed.

Lemma keeps_Write b : keeps (Write b).
Proof.
  intros c. unfold Write.
  destruct (wr_err c) eqn:E; cbn; split; reflexivity || assumption.
Qed.

Lemma keeps_sendReply rep addr : keeps (sendReply rep addr).
Proof.
  apply keeps_bind; [apply keeps_Write | intros; apply keeps_ret].
Qed.

Lemma keeps_handshake : keeps handshake.
Proof.
  unfold handshake.
  apply keeps_bind; [apply keeps_ReadFull | intros header].
  destruct (negb _); [apply keeps_fail |].
  apply keeps_bind; [apply keeps_ReadFull | intros methods].
  destruct (negb _).
  - apply keeps_bind; [apply keeps_Write | intros; apply keeps_fail].
  - apply keeps_bind; [apply keeps_Write | intros [e |]];
      [apply keeps_fail | apply keeps_ret].
Qed.

Variable ipText : list byte -> string.

Lemma keeps_readHost atyp : keeps (readHost ipText atyp).
Proof.
  unfold readHost.
  repeat match goal with
         | |- keeps (if ?b then _ else _) => destruct b
         | |- keeps (bind _ _) => apply keeps_bind; [| intros ?]
         end;
    auto using keeps_ReadFull, keeps_ret, keeps_fail, keeps_sendReply.
Qed.

Lemma keeps_readRequest : keeps (readRequest ipText).
Proof.
  unfold readRequest.
  repeat match goal with
         | |- keeps (if ?b then _ else _) => destruct b
         | |- keeps (bind _ _) => apply keeps_bind; [| intros ?]
         end;
    auto using keeps_ReadFull, keeps_ret, keeps_fail, keeps_sendReply,
      keeps_readHost.
Qed.

Variables sshConn netConn : Type.
Variable conn_Dial : sshConn -> string -> string -> result netConn.
Variable client : ssh.Client sshConn.

(** C5: every reply is ten bytes: 0x05, the reply code, a zero byte,
    address type 0x01, four address bytes and two port bytes.  When the
    dial through the transport fails, the reply written has code 0x04
    and zero address and port bytes; when it succeeds, the reply has
    code 0x00, the port of the connection's local address in big-endian
    order, and its IP address in 4-byte form, or 0.0.0.0 when it has
    none. *)
Theorem sendReply_spec :
  (forall rep addr conn,
      wr_err conn = None ->
      exists a b c d p1 p2,
        sendReply rep addr conn
        = (inl tt,
           conn_written conn [x05; rep; x00; x01; a; b; c; d; p1; p2]))
  /\ (forall c c1 c2 target,
         wr_err c = None ->
         handshake c = (inl tt, c1) ->
         readRequest ipText c1 = (inl target, c2) ->
         (forall e,
             fst (ssh.Dial conn_Dial client "tcp" target) = Err e ->
             handleConnection ipText conn_Dial client c
             = (DialFailed e,
                conn_written c2
                  [x05; x04; x00; x01; x00; x00; x00; x00; x00; x00]))
         /\ (forall remoteConn ip port,
                fst (ssh.Dial conn_Dial client "tcp" target) = Ok remoteConn ->
                LocalAddr c = {| IP := Some ip; Port := port |} ->
                0 <= port < 65536 ->
                exists p1 p2,
                  256 * Z_of_byte p1 + Z_of_byte p2 = port
                  /\ handleConnection ipText conn_Dial client c
                     = (Relaying target remoteConn,
                        conn_written c2
                          ([x05; x00; x00; x01]
                             ++ match To4 ip with
                                | Some ip4 => ip4
                                | None => [x00; x00; x00; x00]
                                end
                             ++ [p1; p2])))).
Proof.
  split.
  { intros rep addr conn Hw.
    destruct (replyBytes_shape rep addr) as (a & b & c & d & p1 & p2 & H).
    exists a, b, c, d, p1, p2. now rewrite sendReply_ok, H. }
  intros c c1 c2 target Hw Hh Hr.
  assert (Hk : wr_err c2 = None /\ LocalAddr c2 = LocalAddr c).
  { pose proof (keeps_handshake c) as [H1 H2]. rewrite Hh in H1, H2.
    pose proof (keeps_readRequest c1) as [H3 H4]. rewrite Hr in H3, H4.
    cbn [snd] in *. split; congruence. }
  destruct Hk as [Hw2 Ha2].
  split.
  - intros e Hd. unfold handleConnection. rewrite Hh, Hr, Hd.
    now rewrite sendReply_ok.
  - intros remoteConn ip port Hd Ha Hp.
    destruct (PutUint16_big_endian port Hp) as (p1 & p2 & Hput & Hval).
    exists p1, p2. split; [exact Hval |].
    unfold handleConnection. rewrite Hh, Hr, Hd.
    rewrite sendReply_ok by assumption. cbn [snd].
    rewrite Ha2, Ha. unfold replyBytes, uint16.
    rewrite Z.mod_small by lia. rewrite Hput.
    now rewrite <- app_assoc.
Qed.

End Replies.

Lemma sendReply_spec_witness :
  let c := client_sends [x05; x01; x00;
                         x05; x01; x00; x01; x0a; x00; x00; x01; x1f; x90] in
  let c1 := tunnel.conn_written
              (tunnel.conn_read
                 c [x05; x01; x00; x01; x0a; x00; x00; x01; x1f; x90])
              [x05; x00] in
  let c2 := tunnel.conn_read c1 [] in
  (tunnel.wr_err c = None
   /\ tunnel.handshake c = (inl tt, c1)
   /\ tunnel.readRequest hex_ipText c1 = (inl "10.0.0.1:8080"%string, c2)
   /\ fst (ssh.Dial refusing_dial connected "tcp" "10.0.0.1:8080")
      = Err (OtherError 7))
  /\ tunnel.handleConnection hex_ipText refusing_dial connected c
     = (tunnel.DialFailed (OtherError 7),
        tunnel.conn_written
          c2 [x05; x04; x00; x01; x00; x00; x00; x00; x00; x00]).
Proof.
  intros c c1 c2.
  assert (Hw : tunnel.wr_err c = None) by reflexivity.
  assert (Hh : tunnel.handshake c = (inl tt, c1)) by reflexivity.
  assert (Hr : tunnel.readRequest hex_ipText c1
               = (inl "10.0.0.1:8080"%string, c2)) by reflexivity.
  assert (Hd : fst (ssh.Dial refusing_dial connected "tcp" "10.0.0.1:8080")
               = Err (OtherError 7)) by reflexivity.
  split; [now repeat split |].
  exact (proj1 (proj2 (sendReply_spec hex_ipText unit unit refusing_dial
                                      connected)
                      c c1 c2 "10.0.0.1:8080"%string Hw Hh Hr)
               (OtherError 7) Hd).
Defined.

(** ** Forward-spec parsing *)

Section SplitProps.
Local Open Scope string_scope.

Variable sep : ascii.

Lemma Split_nonempty s : Split s sep <> [].
Proof.
  destruct s as [| a r]; cbn; [discriminate |].
  destruct (Ascii.eqb a sep); [discriminate |].
  destruct (Split r sep); discriminate.
Qed.

(** A string without separator is its own single part. *)
Lemma Split_no_sep s : Contains s sep = false -> Split s sep = [s].
Proof.
  induction s as [| a r IH]; cbn; [reflexivity |].
  intros H. apply orb_false_iff in H as [Ha Hr].
  rewrite Ha, (IH Hr). reflexivity.
Qed.

(** The parts hold no separator. *)
Lemma Split_parts_no_sep s :
  forall p, In p (Split s sep) -> Contains p sep = false.
Proof.
  induction s as [| a r IH]; cbn.
  - intros p [<- | []]. reflexivity.
  - destruct (Ascii.eqb a sep) eqn:Ea.
    + intros p [<- | Hin]; [reflexivity | now apply IH].
    + destruct (Split r sep) as [| h t] eqn:Es.
      * intros p [<- | []]. cbn. now rewrite Ea.
      * intros p [<- | Hin].
        -- cbn. rewrite Ea. apply IH. now left.
        -- apply IH. now right.
Qed.

(** Splitting after a separator: the parts of what follows it are the
    last parts of the whole. *)
Lemma Split_app_sep h t :
  exists front,
    front <> [] /\
    Split (h ++ String sep t) sep = (front ++ Split t sep)%list.
Proof.
  induction h as [| a r (front & Hne & IH)]; cbn.
  - rewrite Ascii.eqb_refl. exists [""]. split; [discriminate | reflexivity].
  - destruct (Ascii.eqb a sep).
    + exists ("" :: front). split; [discriminate |]. now rewrite IH.
    + rewrite IH. destruct front as [| x front']; [contradiction |].
      exists (String a x :: front'). split; [discriminate | reflexivity].
Qed.

Lemma last_Split_app_sep h t :
  last (Split (h ++ String sep t) sep) "" = last (Split t sep) "".
Proof.
  destruct (Split_app_sep h t) as (front & _ & ->).
  pose proof (Split_nonempty t) as Hne.
  destruct (Split t sep) as [| x l]; [contradiction |].
  clear Hne. induction front as [| y front IH]; [reflexivity |].
  cbn [app]. rewrite <- IH.
  destruct (front ++ x :: l)%list eqn:E; [| reflexivity].
  now destruct front.
Qed.

Lemma Contains_app_sep h t : Contains (h ++ String sep t) sep = true.
Proof.
  induction h as [| a r IH]; cbn.
  - now rewrite Ascii.eqb_refl.
  - rewrite IH. apply orb_true_r.
Qed.

(** A string with a separator splits at its last one. *)
Lemma last_sep_decomp s :
  Contains s sep = true ->
  exists h p, s = h ++ String sep p /\ Contains p sep = false.
Proof.
  induction s as [| a r IH]; cbn [Contains]; [discriminate |].
  intros H. destruct (Contains r sep) eqn:Hr.
  - destruct (IH eq_refl) as (h & p & -> & Hp).
    exists (String a h), p. now split.
  - rewrite orb_false_r in H. apply Ascii.eqb_eq in H. subst a.
    exists "", r. now split.
Qed.

Lemma last_Split_join h p :
  Contains p sep = false -> last (Split (h ++ String sep p) sep) "" = p.
Proof.
  intros Hp. now rewrite last_Split_app_sep, (Split_no_sep p Hp).
Qed.

End SplitProps.

Section ParseProps.
Import config.
Local Open Scope string_scope.

(** A joined pair is valid exactly when its port part is decimal. *)
Lemma valid_hostport_join h p :
  Contains p ":" = false ->
  valid_hostport (h ++ ":" ++ p) = decimal_port p.
Proof.
  intros Hp. unfold valid_hostport, port_of.
  change (h ++ ":" ++ p) with (h ++ String ":" p).
  now rewrite Contains_app_sep, last_Split_join.
Qed.

Lemma ParseLocalForward_shape spec t :
  ParseLocalForward spec = inl t ->
  exists bh bp th tp,
    LBind t = bh ++ ":" ++ bp /\ LTarget t = th ++ ":" ++ tp
    /\ In bp (Split spec ":") /\ In tp (Split spec ":").
Proof.
  unfold ParseLocalForward.
  destruct (Split spec ":") as [| p0 [| p1 [| p2 [| p3 [| ? ?]]]]];
    try discriminate; intros [= <-]; cbn [LBind LTarget].
  - exists "127.0.0.1", p0, p1, p2. repeat split; cbn; auto.
  - exists p0, p1, p2, p3. repeat split; cbn; auto.
Qed.

Lemma ParseRemoteForward_shape spec t :
  ParseRemoteForward spec = inl t ->
  exists bh bp th tp,
    RBind t = bh ++ ":" ++ bp /\ RTarget t = th ++ ":" ++ tp
    /\ In bp (Split spec ":") /\ In tp (Split spec ":").
Proof.
  unfold ParseRemoteForward.
  destruct (Split spec ":") as [| p0 [| p1 [| p2 [| p3 [| ? ?]]]]];
    try discriminate; intros [= <-]; cbn [RBind RTarget].
  - exists "0.0.0.0", p0, p1, p2. repeat split; cbn; auto.
  - exists p0, p1, p2, p3. repeat split; cbn; auto.
Qed.

Lemma ParseDynamicForward_shape spec t :
  ParseDynamicForward spec = inl t ->
  exists bh bp,
    DBind t = bh ++ ":" ++ bp /\ Contains bp ":" = false.
Proof.
  unfold ParseDynamicForward. destruct (Contains spec ":") eqn:Hc.
  - intros [= <-]. cbn [DBind].
    destruct (last_sep_decomp ":" spec Hc) as (h & p & -> & Hp).
    now exists h, p.
  - intros [= <-]. cbn [DBind]. now exists "127.0.0.1", spec.
Qed.


End ParseProps.

(** C6: the shorthand forms of the specification parse to the stated
    bind and target addresses. *)
Theorem parse_forward_examples :
  config.ParseLocalForward "8080:localhost:80"
  = inl {| config.LBind := "127.0.0.1:8080";
           config.LTarget := "localhost:80" |}
  /\ config.ParseRemoteForward "8080:localhost:80"
     = inl {| config.RBind := "0.0.0.0:8080";
              config.RTarget := "localhost:80" |}
  /\ config.ParseLocalForward "0.0.0.0:9090:localhost:22"
     = inl {| config.LBind := "0.0.0.0:9090";
              config.LTarget := "localhost:22" |}
  /\ config.ParseRemoteForward "0.0.0.0:9090:localhost:22"
     = inl {| config.RBind := "0.0.0.0:9090";
              config.RTarget := "localhost:22" |}
  /\ config.ParseDynamicForward "1080"
     = inl {| config.DBind := "127.0.0.1:1080" |}
  /\ config.ParseDynamicForward "10.0.0.1:1080"
     = inl {| config.DBind := "10.0.0.1:1080" |}.
Proof. repeat split. Qed.



(** ** The relay primitive *)

Section Relay.
Import tunnel.

Variable types : side -> conn_type.

Lemma bidirectionalCopy_snoc events ev :
  bidirectionalCopy types (events ++ [ev])
  = relay_step types (bidirectionalCopy types events) ev.
Proof. unfold bidirectionalCopy. now rewrite fold_left_app. Qed.

Lemma copy_count_app d xs ys :
  copy_count d (xs ++ ys) = (copy_count d xs + copy_count d ys)%nat.
Proof. unfold copy_count. now rewrite filter_app, length_app. Qed.

Lemma copies_snoc events ev :
  copies (events ++ [ev])
  = (copies events + if is_CtxDone ev then 0 else 1)%nat.
Proof.
  unfold copies. rewrite !copy_count_app.
  destruct ev as [[] err |]; cbn; lia.
Qed.

(** The state of the relay after a run, in terms of its events. *)
Lemma bidirectionalCopy_state events :
  let st := bidirectionalCopy types events in
  wg st = 2 - Z.of_nat (copies events)
  /\ done st = (2 <=? copies events)%nat
  /\ returned st = existsb is_CtxDone events || (2 <=? copies events)%nat
  /\ log st = flat_map (logged types) events.
Proof.
  induction events as [| ev events IH] using rev_ind.
  - cbn. repeat split.
  - cbv zeta in *. destruct IH as (Hwg & Hdone & Hret & Hlog).
    rewrite bidirectionalCopy_snoc, copies_snoc, existsb_app, flat_map_app.
    cbn [existsb flat_map]. rewrite app_nil_r.
    destruct ev as [dst err |];
      cbn [relay_step wg done returned log is_CtxDone logged];
      rewrite ?Hwg, ?Hdone, ?Hret, ?Hlog;
      (split; [lia |]); repeat split;
      destruct (existsb is_CtxDone events);
      repeat match goal with
             | |- context [(?a <=? ?b)%nat] => destruct (Nat.leb_spec a b)
             | |- context [?a =? ?b] => destruct (Z.eqb_spec a b)
             end;
      cbn; rewrite ?app_nil_r; reflexivity || lia.
Qed.

Lemma existsb_is_CtxDone events :
  existsb is_CtxDone events = true <-> In CtxDone events.
Proof.
  rewrite existsb_exists. split.
  - intros ([dst err |] & Hin & H); [discriminate | exact Hin].
  - intros Hin. now exists CtxDone.
Qed.

Lemma copied_iff_count d events :
  copied d events <-> (1 <= copy_count d events)%nat.
Proof.
  unfold copied, copy_count. split.
  - intros (err & Hin).
    assert (Hf : In (CopyReturns d err)
                    (filter (fun ev => match ev with
                                       | CopyReturns d' _ => side_eqb d d'
                                       | CtxDone => false
                                       end) events)).
    { apply filter_In. split; [exact Hin | now destruct d]. }
    destruct (filter _ events); [contradiction | cbn; lia].
  - intros Hlen.
    destruct (filter _ events) as [| ev l] eqn:E; [cbn in Hlen; lia |].
    assert (Hin : In ev (filter (fun ev => match ev with
                                           | CopyReturns d' _ => side_eqb d d'
                                           | CtxDone => false
                                           end) events))
      by (rewrite E; now left).
    apply filter_In in Hin as [Hin Hev].
    destruct ev as [d' err |]; [| discriminate].
    exists err. destruct d, d'; (discriminate || exact Hin).
Qed.

Lemma well_formed_prefix pre post :
  well_formed (pre ++ post) -> well_formed pre.
Proof.
  unfold well_formed. rewrite !copy_count_app. lia.
Qed.

Lemma both_copied events :
  well_formed events ->
  (2 <=? copies events)%nat = true
  <-> copied Conn1 events /\ copied Conn2 events.
Proof.
  intros [H1 H2]. rewrite !copied_iff_count, Nat.leb_le.
  unfold copies. lia.
Qed.

Lemma In_copyFunc_CloseWrite d dst ty err :
  In (CloseWrite d) (copyFunc dst ty err) <-> ty = TCPConn /\ d = dst.
Proof.
  unfold copyFunc. rewrite in_app_iff. split.
  - intros [H | H].
    + destruct err as [e |]; [| contradiction].
      destruct (negb _); [destruct H as [H | []]; discriminate | contradiction].
    + destruct ty; [| contradiction].
      destruct H as [[= ->] | []]. now split.
  - intros [-> ->]. right. now left.
Qed.

Lemma In_copyFunc_LogDebug e dst ty err :
  In (LogDebug e) (copyFunc dst ty err) ->
  err = Some e /\ isClosedError (Some e) = false.
Proof.
  unfold copyFunc. rewrite in_app_iff. intros [H | H].
  - destruct err as [e' |]; [| contradiction].
    destruct (isClosedError (Some e')) eqn:E; cbn [negb] in H;
      [contradiction |].
    destruct H as [[= ->] | []]. now split.
  - destruct ty; [destruct H as [H | []]; discriminate | contradiction].
Qed.


End Relay.



(** ** The transport handle *)

(** C10: on a client whose connection handle is nil (never connected, or
    closed), Dial, Listen and KeepAlive each return the "not connected"
    error and leave the client as it was. *)
Theorem not_connected_spec
        (sshConn netConn netListener : Type)
        (conn_Dial : sshConn -> string -> string -> result netConn)
        (conn_Listen : sshConn -> string -> string -> result netListener)
        (conn_SendRequest : sshConn -> string -> bool -> option error) :
  (forall (c : ssh.Client sshConn) network address,
      ssh.conn c = None ->
      ssh.Dial conn_Dial c network address = (Err ssh.ErrNotConnected, c)
      /\ ssh.Listen conn_Listen c network address
         = (Err ssh.ErrNotConnected, c)
      /\ ssh.KeepAlive conn_SendRequest c = (Some ssh.ErrNotConnected, c))
  /\ ssh.conn (@ssh.NewClient sshConn) = None
  /\ (forall (c : ssh.Client sshConn) close_err,
         ssh.conn (snd (ssh.Close c close_err)) = None).
Proof.
  split; [| split].
  - intros c network address H.
    unfold ssh.Dial, ssh.Listen, ssh.KeepAlive. rewrite H. repeat split.
  - reflexivity.
  - intros c close_err. unfold ssh.Close. now destruct (ssh.conn c).
Qed.

Lemma not_connected_spec_witness :
  ssh.conn (@ssh.NewClient unit) = None
  /\ ssh.Dial accepting_dial ssh.NewClient "tcp" "localhost:80"
     = (Err ssh.ErrNotConnected, ssh.NewClient).
Proof.
  split; [reflexivity |].
  exact (proj1 (proj1 (not_connected_spec unit unit unit accepting_dial
                                          accepting_dial
                                          (fun _ _ _ => None))
                      ssh.NewClient "tcp"%string "localhost:80"%string
                      eq_refl)).
Defined.

(** * Further properties *)

(** ** The backoff delay and the reconnect loop *)

Section MonitorMore.
Import config monitor.

Lemma backoff_loop_capped n b i :
  6 <= n -> backoff_loop n b i = backoff_loop 6 b i.
Proof.
  intros Hn. functional induction (backoff_loop 6 b i).
  - rewrite backoff_loop_equation.
    match goal with
    | H : _ && _ = true |- _ => apply andb_prop in H as [H1 _]
    end.
    apply Z.ltb_lt in H1.
    replace (i <? n) with true by (symmetry; apply Z.ltb_lt; lia).
    replace (i <? 6) with true by (symmetry; apply Z.ltb_lt; lia).
    cbn [andb]. assumption.
  - rewrite backoff_loop_equation.
    match goal with
    | H : _ && _ = false |- _ => rewrite andb_diag in H
    end.
    match goal with
    | H : (_ <? 6) = false |- _ => rewrite H
    end.
    now rewrite andb_false_r.
Qed.

Lemma backoff_loop_first n b : n <= 1 -> backoff_loop n b 1 = b.
Proof.
  intros Hn. rewrite backoff_loop_equation.
  replace (1 <? n) with false by (symmetry; apply Z.ltb_ge; lia).
  reflexivity.
Qed.

Lemma calculateBackoff_le_max n b : calculateBackoff n b <= 60 * Second.
Proof.
  unfold calculateBackoff. cbv zeta.
  destruct (Z.gtb_spec (backoff_loop n b 1) (60 * Second)); lia.
Qed.

(** The delay stops growing at the sixth attempt, and an attempt number
    below 2 gives the base interval, capped. *)
Theorem calculateBackoff_saturates n b :
  (6 <= n -> calculateBackoff n b = calculateBackoff 6 b)
  /\ (n <= 1 -> calculateBackoff n b = Z.min b (60 * Second)).
Proof.
  split; intros Hn; unfold calculateBackoff; cbv zeta.
  - now rewrite backoff_loop_capped.
  - rewrite backoff_loop_first by assumption.
    destruct (Z.gtb_spec b (60 * Second)); lia.
Qed.

Lemma calculateBackoff_exact n b :
  1 <= n -> 0 <= b -> b * 32 < 2 ^ 63 ->
  calculateBackoff n b = Z.min (b * 2 ^ Z.min (n - 1) 5) (60 * Second).
Proof.
  intros Hn Hb Hfit.
  assert (Hpow : 1 <= 2 ^ Z.min (n - 1) 5 <= 32).
  { split.
    - apply (Z.pow_le_mono_r 2 0); lia.
    - change 32 with (2 ^ 5). apply Z.pow_le_mono_r; lia. }
  rewrite calculateBackoff_wrap by (unfold int64; lia || nia).
  rewrite wrap64_id by (unfold int64; nia). reflexivity.
Qed.

(** For a base interval that is not negative and below 2^58 ns, the
    delay never shrinks from one attempt to the next and lies between
    the capped base interval and 60 seconds. *)
Theorem calculateBackoff_monotone n b :
  1 <= n -> 0 <= b -> b * 32 < 2 ^ 63 ->
  Z.min b (60 * Second) <= calculateBackoff n b
  /\ calculateBackoff n b <= calculateBackoff (n + 1) b
  /\ calculateBackoff (n + 1) b <= 60 * Second.
Proof.
  intros Hn Hb Hfit.
  rewrite !calculateBackoff_exact by lia.
  assert (H1 : 1 <= 2 ^ Z.min (n - 1) 5)
    by (apply (Z.pow_le_mono_r 2 0); lia).
  assert (H2 : 2 ^ Z.min (n - 1) 5 <= 2 ^ Z.min (n + 1 - 1) 5)
    by (apply Z.pow_le_mono_r; lia).
  split; [| split]; nia.
Qed.

(** Every wait of a turn is a capped backoff, and only a turn with
    reconnection enabled waits. *)
Lemma loop_body_waits cfg rc t a :
  In a (fst (loop_body cfg rc t)) -> is_wait a ->
  Enabled cfg = true /\ exists d, a = Backoff d /\ d <= 60 * Second.
Proof.
  unfold loop_body, is_wait. intros Hin (d & ->).
  destruct (stop_pending t); [contradiction |].
  destruct (connect t) as [err |].
  - destruct (Enabled cfg); cbn [negb] in Hin.
    + split; [reflexivity |].
      destruct (_ && _).
      * destruct Hin as [H | []]; discriminate.
      * assert (Hd : d = calculateBackoff (wrap64 (rc + 1)) (Interval cfg)).
        { destruct (stop_in_backoff t);
            destruct Hin as [H | [H | []]]; congruence. }
        exists d. split; [reflexivity |].
        subst d. apply calculateBackoff_le_max.
    + destruct Hin as [H | []]; discriminate.
  - destruct (tunnels t); [| destruct (wakeup t); [destruct (negb _) |]];
      cbn in Hin; intuition discriminate.
Qed.

(** The monitor waits only with reconnection enabled, and never longer
    than 60 seconds. *)
Theorem monitor_waits_bounded cfg rc turns a :
  In a (fst (Start_from cfg rc turns)) -> is_wait a ->
  Enabled cfg = true /\ exists d, a = Backoff d /\ d <= 60 * Second.
Proof.
  revert rc. induction turns as [| t rest IH]; intros rc Hin Hw;
    [contradiction |].
  cbn [Start_from] in Hin.
  destruct (loop_body cfg rc t) as [acts [rc' | err]] eqn:E.
  - destruct (Start_from cfg rc' rest) as [acts' o] eqn:E'.
    cbn [fst] in Hin. apply in_app_or in Hin as [Hin | Hin].
    + apply (loop_body_waits cfg rc t); [now rewrite E | assumption].
    + apply (IH rc'); [now rewrite E' | assumption].
  - apply (loop_body_waits cfg rc t); [now rewrite E | assumption].
Qed.

(** Without a retry budget the loop never gives up. *)
Theorem monitor_never_gives_up cfg rc turns e :
  Enabled cfg = true -> MaxRetries cfg <= 0 ->
  snd (Start_from cfg rc turns) <> Returned (Some e).
Proof.
  intros He Hm. revert rc.
  induction turns as [| t rest IH]; intros rc; [discriminate |].
  cbn [Start_from].
  assert (Hbody : forall e', snd (loop_body cfg rc t) <> Return (Some e')).
  { intros e'. unfold loop_body. rewrite He.
    replace (MaxRetries cfg >? 0) with false
      by (symmetry; rewrite Z.gtb_ltb; apply Z.ltb_ge; lia).
    cbn [negb andb].
    destruct (stop_pending t); [discriminate |].
    destruct (connect t).
    - destruct (stop_in_backoff t); discriminate.
    - destruct (tunnels t); [discriminate |].
      destruct (wakeup t); discriminate. }
  destruct (loop_body cfg rc t) as [acts [rc' | err]].
  - specialize (IH rc'). destruct (Start_from cfg rc' rest). exact IH.
  - cbn [snd] in *. intros [= ->]. now apply (Hbody e).
Qed.

(** [Start] returns nil only when a stop request was seen. *)
Theorem monitor_clean_exit_needs_stop cfg rc turns :
  Forall unstopped turns ->
  snd (Start_from cfg rc turns) <> Returned None.
Proof.
  intros Hall. revert rc.
  induction Hall as [| t rest (Hs & Hb & Hw) _ IH]; intros rc;
    [discriminate |].
  cbn [Start_from].
  assert (Hbody : snd (loop_body cfg rc t) <> Return None).
  { unfold loop_body. rewrite Hs, Hb.
    destruct (connect t).
    - destruct (negb _); [discriminate |].
      destruct (_ && _); discriminate.
    - destruct (tunnels t); [discriminate |].
      destruct (wakeup t); [| contradiction].
      destruct (negb _); discriminate. }
  destruct (loop_body cfg rc t) as [acts [rc' | err]].
  - specialize (IH rc'). destruct (Start_from cfg rc' rest). exact IH.
  - cbn [snd] in *. congruence.
Qed.

Lemma phase_after_app p xs ys :
  phase_after p (xs ++ ys) = phase_after (phase_after p xs) ys.
Proof. unfold phase_after. apply fold_left_app. Qed.

Lemma loop_body_phase cfg rc t :
  match snd (loop_body cfg rc t) with
  | Continue _ => phase_after Down (fst (loop_body cfg rc t)) = Down
  | Return None =>
      phase_after Down (fst (loop_body cfg rc t)) = Down
  | Return (Some _) =>
      phase_after Down (fst (loop_body cfg rc t)) = Down
      \/ (phase_after Down (fst (loop_body cfg rc t)) = Dialled
          /\ connect t <> None)
  end.
Proof.
  unfold loop_body.
  destruct (stop_pending t); [reflexivity |].
  destruct (connect t).
  - destruct (negb _); [right; split; [reflexivity | discriminate] |].
    destruct (_ && _); [right; split; [reflexivity | discriminate] |].
    destruct (stop_in_backoff t); reflexivity.
  - destruct (tunnels t); [reflexivity |].
    destruct (wakeup t); [| reflexivity].
    destruct (negb _); [left |]; reflexivity.
Qed.


End MonitorMore.

(** ** Decimal text *)

Lemma string_of_uint_digits d :
  config.all_digits (NilEmpty.string_of_uint d) = true.
Proof. induction d; cbn; auto. Qed.

Lemma all_digits_no_colon s :
  config.all_digits s = true -> Contains s ":" = false.
Proof.
  induction s as [| a r IH]; cbn; [reflexivity |].
  intros H. apply andb_prop in H as [Ha Hr]. rewrite (IH Hr), orb_false_r.
  destruct (Ascii.eqb_spec a ":") as [-> | _]; [discriminate | reflexivity].
Qed.

(** [%d] prints a number as a non-empty run of digits that reads back
    as the number. *)
Lemma fmt_d_decimal n :
  config.decimal_port (fmt_d n) = true
  /\ Contains (fmt_d n) ":" = false
  /\ option_map N.of_uint (NilEmpty.uint_of_string (fmt_d n)) = Some n.
Proof.
  unfold fmt_d. split; [| split].
  - unfold config.decimal_port. rewrite string_of_uint_digits, andb_true_r.
    destruct n as [| p]; [reflexivity |]. cbn [N.to_uint].
    pose proof (Unsigned.to_uint_nonnil p) as H.
    destruct (Pos.to_uint p); [contradiction | reflexivity ..].
  - apply all_digits_no_colon, string_of_uint_digits.
  - rewrite NilEmpty.usu. cbn. now rewrite DecimalN.Unsigned.of_to.
Qed.

Section Socks5More.
Import tunnel.

Variable ipText : list byte -> string.

(** *** What a step reads and writes *)

Lemma bind_inl A B (m : io A) (k : A -> io B) c b c' :
  bind m k c = (inl b, c') ->
  exists a c1, m c = (inl a, c1) /\ k a c1 = (inl b, c').
Proof.
  unfold bind. destruct (m c) as [[a | e] c1]; [| discriminate].
  intros H. now exists a, c1.
Qed.

Lemma ReadFull_inl n wrap c bs c' :
  ReadFull n wrap c = (inl bs, c') ->
  rd c = bs ++ rd c' /\ List.length bs = n /\ wr c' = wr c.
Proof.
  unfold ReadFull. destruct (Nat.leb_spec n (List.length (rd c)));
    [| discriminate].
  intros [= <- <-]. cbn [rd wr conn_read].
  rewrite firstn_skipn, length_firstn. repeat split. lia.
Qed.

Lemma readHost_inl atyp c host c' :
  readHost ipText atyp c = (inl host, c') ->
  wr c' = wr c /\ exists bs, rd c = bs ++ rd c'.
Proof.
  unfold readHost.
  destruct (Byte.eqb atyp addrTypeIPv4);
    [| destruct (Byte.eqb atyp addrTypeDomain);
       [| destruct (Byte.eqb atyp addrTypeIPv6)]];
    intros H.
  - apply bind_inl in H as (addr & c1 & H1 & [= <- <-]).
    apply ReadFull_inl in H1 as (Hrd & _ & Hwr). eauto.
  - apply bind_inl in H as (lenBuf & c1 & H1 & H).
    apply bind_inl in H as (domain & c2 & H2 & [= <- <-]).
    apply ReadFull_inl in H1 as (Hrd1 & _ & Hwr1).
    apply ReadFull_inl in H2 as (Hrd2 & _ & Hwr2).
    split; [congruence |]. exists (lenBuf ++ domain).
    now rewrite Hrd1, Hrd2, app_assoc.
  - apply bind_inl in H as (addr & c1 & H1 & [= <- <-]).
    apply ReadFull_inl in H1 as (Hrd & _ & Hwr). eauto.
  - apply bind_inl in H as (u & c1 & _ & H). discriminate.
Qed.



(** *** Which bytes go out with which outcome *)

Ltac io_cases :=
  unfold sendReply; unfold bind, ReadFull, Write, ret, fail;
  repeat match goal with
         | |- context [if ?b then _ else _] => destruct b
         | |- context [match wr_err ?c with _ => _ end] =>
             destruct (wr_err c)
         end;
  cbn [fst snd wr conn_read conn_written].

Ltac wrote out :=
  exists out; split;
  [now rewrite ?app_nil_r | cbn; auto 10].

Lemma handshake_wrote c :
  exists out,
    wr (snd (handshake c)) = wr c ++ out
    /\ match fst (handshake c) with
       | inl _ => out = [x05; x00]
       | inr ErrNoAuthNotOffered => out = [] \/ out = [x05; xff]
       | inr _ => out = []
       end.
Proof.
  unfold handshake. io_cases;
    first [wrote (@nil byte) | wrote [x05; xff] | wrote [x05; x00]].
Qed.

Lemma handshake_writable c c1 :
  handshake c = (inl tt, c1) -> wr_err c = None.
Proof.
  destruct (wr_err c) as [e |] eqn:E; [| reflexivity].
  unfold handshake, bind, ReadFull, Write, ret, fail.
  repeat match goal with
         | |- context [if ?b then _ else _] => destruct b
         end;
    cbn [wr_err conn_read]; rewrite ?E; discriminate.
Qed.

Lemma readRequest_wrote c :
  exists out,
    wr (snd (readRequest ipText c)) = wr c ++ out
    /\ match fst (readRequest ipText c) with
       | inl _ => out = []
       | inr (ErrUnsupportedCommand _) =>
           out = [] \/ out = [x05; x07; x00; x01; x00; x00; x00; x00; x00; x00]
       | inr (ErrUnsupportedAddrType _) =>
           out = [] \/ out = [x05; x08; x00; x01; x00; x00; x00; x00; x00; x00]
       | inr _ => out = []
       end.
Proof.
  unfold readRequest, readHost. io_cases;
    first [wrote (@nil byte)
          | wrote [x05; x07; x00; x01; x00; x00; x00; x00; x00; x00]
          | wrote [x05; x08; x00; x01; x00; x00; x00; x00; x00; x00]].
Qed.


Variables sshConn netConn : Type.
Variable conn_Dial : sshConn -> string -> string -> result netConn.
Variable client : ssh.Client sshConn.

Lemma sendReply_wrote rep addr c :
  wr (snd (sendReply rep addr c)) = wr c
  \/ wr (snd (sendReply rep addr c)) = wr c ++ replyBytes rep addr.
Proof.
  unfold sendReply, bind, Write, ret.
  destruct (wr_err c); cbn; auto.
Qed.

(** All that the endpoint ever writes to a client before relaying: the
    method selection, and after it one reply at most. *)
Theorem handleConnection_output c :
  exists out,
    wr (snd (handleConnection ipText conn_Dial client c)) = wr c ++ out
    /\ match fst (handleConnection ipText conn_Dial client c) with
       | HandshakeFailed _ => out = [] \/ out = [x05; xff]
       | RequestFailed _ =>
           out = [x05; x00]
           \/ out = [x05; x00; x05; x07; x00; x01; x00; x00; x00; x00; x00; x00]
           \/ out = [x05; x00; x05; x08; x00; x01; x00; x00; x00; x00; x00; x00]
       | DialFailed _ =>
           out = [x05; x00]
           \/ out = [x05; x00; x05; x04; x00; x01; x00; x00; x00; x00; x00; x00]
       | Relaying _ _ =>
           out = [x05; x00]
           \/ exists a b c d p1 p2,
               out = [x05; x00; x05; x00; x00; x01; a; b; c; d; p1; p2]
       end.
Proof.
  unfold handleConnection.
  destruct (handshake_wrote c) as (o1 & Hw1 & Ho1).
  destruct (handshake c) as [[u | e] c1]; cbn [fst snd] in *.
  2:{ exists o1. split; [exact Hw1 |]. destruct e; auto. }
  subst o1.
  destruct (readRequest_wrote c1) as (o2 & Hw2 & Ho2).
  destruct (readRequest ipText c1) as [[target | e] c2]; cbn [fst snd] in *.
  2:{ exists ([x05; x00] ++ o2). split.
      - now rewrite Hw2, Hw1, <- app_assoc.
      - destruct e; try (left; now subst o2);
          destruct Ho2 as [-> | ->]; auto. }
  subst o2. rewrite app_nil_r in Hw2.
  destruct (fst (ssh.Dial conn_Dial client "tcp" target)) as [remote | e];
    cbn [fst snd].
  - destruct (sendReply_wrote repSuccess (Some (LocalAddr c2)) c2) as [H | H];
      rewrite H, Hw2, Hw1.
    + exists [x05; x00]. auto.
    + destruct (replyBytes_shape repSuccess (Some (LocalAddr c2)))
        as (a & b & c4 & d & p1 & p2 & ->).
      eexists. split; [now rewrite <- app_assoc |].
      right. now exists a, b, c4, d, p1, p2.
  - destruct (sendReply_wrote repHostUnreach None c2) as [H | H];
      rewrite H, Hw2, Hw1.
    + exists [x05; x00]. auto.
    + eexists. split; [now rewrite <- app_assoc |]. now right.
Qed.

(** A CONNECT request for an IPv4 target, after a greeting that offers
    "no authentication". *)
Theorem connect_ipv4_round_trip c n methods a b c4 d p1 p2 rest :
  rd c = [x05; n] ++ methods
           ++ [x05; x01; x00; x01; a; b; c4; d; p1; p2] ++ rest ->
  List.length methods = Byte.to_nat n ->
  In x00 methods ->
  wr_err c = None ->
  let target :=
    ((fmt_d (Byte.to_N a) ++ "." ++ fmt_d (Byte.to_N b) ++ "."
      ++ fmt_d (Byte.to_N c4) ++ "." ++ fmt_d (Byte.to_N d))
     ++ ":" ++ fmt_d (Z.to_N (256 * Z_of_byte p1 + Z_of_byte p2)))%string in
  match fst (ssh.Dial conn_Dial client "tcp" target) with
  | Ok remoteConn =>
      fst (handleConnection ipText conn_Dial client c)
      = Relaying target remoteConn
      /\ rd (snd (handleConnection ipText conn_Dial client c)) = rest
      /\ firstn 4 (skipn (List.length (wr c))
                         (wr (snd (handleConnection ipText conn_Dial client c))))
         = [x05; x00; x05; x00]
  | Err e =>
      handleConnection ipText conn_Dial client c
      = (DialFailed e,
         conn_written (conn_read c rest)
           [x05; x00; x05; x04; x00; x01; x00; x00; x00; x00; x00; x00])
  end.
Proof.
  intros Hrd Hlen Hin Hw target.
  assert (Hh : handshake c
               = (inl tt,
                  conn_written
                    (conn_read c ([x05; x01; x00; x01; a; b; c4; d; p1; p2]
                                    ++ rest))
                    [x05; x00])).
  { unfold handshake, bind.
    rewrite (ReadFull_ok 2 _ c [x05; n] _ Hrd eq_refl). cbn [nth].
    rewrite byte_eqb_refl. cbn [negb].
    rewrite (ReadFull_ok (Byte.to_nat n) _ (conn_read c _) methods
                         ([x05; x01; x00; x01; a; b; c4; d; p1; p2] ++ rest))
      by (reflexivity || assumption).
    apply existsb_authNone in Hin. rewrite Hin. cbn [negb].
    now rewrite Write_ok. }
  set (c1 := conn_written _ _) in Hh.
  assert (Hr : readRequest ipText c1 = (inl target, conn_read c1 rest)).
  { unfold readRequest, bind.
    rewrite (ReadFull_ok 4 _ c1 [x05; x01; x00; x01]
                         ([a; b; c4; d; p1; p2] ++ rest)) by reflexivity.
    cbn [nth]. rewrite !byte_eqb_refl. cbn [negb].
    unfold readHost. rewrite byte_eqb_refl. unfold bind.
    rewrite (ReadFull_ok 4 _ _ [a; b; c4; d] ([p1; p2] ++ rest))
      by reflexivity.
    unfold ret.
    rewrite (ReadFull_ok 2 _ _ [p1; p2] rest) by reflexivity.
    rewrite Uint16_big_endian. reflexivity. }
  unfold handleConnection. rewrite Hh, Hr.
  destruct (fst (ssh.Dial conn_Dial client "tcp" target)) as [remote | e].
  - rewrite sendReply_ok by exact Hw. cbn [fst snd].
    split; [reflexivity |]. split; [reflexivity |].
    destruct (replyBytes_shape repSuccess (Some (LocalAddr (conn_read c1 rest))))
      as (a' & b' & c' & d' & q1 & q2 & ->).
    cbn [wr conn_written conn_read c1].
    rewrite <- app_assoc, skipn_app, Nat.sub_diag, skipn_all. reflexivity.
  - rewrite sendReply_ok by exact Hw. cbn [fst snd].
    f_equal. unfold conn_written, conn_read, c1. cbn.
    now rewrite <- app_assoc.
Qed.

(** While the transport is down every request is answered "host
    unreachable". *)
Theorem unconnected_client_unreachable c c1 c2 target :
  ssh.conn client = None ->
  handshake c = (inl tt, c1) ->
  readRequest ipText c1 = (inl target, c2) ->
  handleConnection ipText conn_Dial client c
  = (DialFailed ssh.ErrNotConnected,
     conn_written c2 [x05; x04; x00; x01; x00; x00; x00; x00; x00; x00])
  /\ wr (conn_written c2 [x05; x04; x00; x01; x00; x00; x00; x00; x00; x00])
     = wr c ++ [x05; x00; x05; x04; x00; x01; x00; x00; x00; x00; x00; x00].
Proof.
  intros Hc Hh Hr.
  destruct (handshake_wrote c) as (o1 & Hw1 & Ho1).
  destruct (readRequest_wrote c1) as (o2 & Hw2 & Ho2).
  rewrite Hh in Hw1, Ho1. rewrite Hr in Hw2, Ho2. cbn [fst snd] in *.
  subst o1 o2. rewrite app_nil_r in Hw2.
  assert (Hok : wr_err c2 = None).
  { pose proof (keeps_handshake c) as [H1 _]. rewrite Hh in H1.
    pose proof (keeps_readRequest ipText c1) as [H2 _]. rewrite Hr in H2.
    cbn [snd] in *. rewrite H2, H1. now apply handshake_writable in Hh. }
  split.
  - unfold handleConnection, ssh.Dial. rewrite Hh, Hr, Hc. cbn [fst].
    now rewrite sendReply_ok.
  - cbn [wr conn_written]. now rewrite Hw2, Hw1, <- app_assoc.
Qed.

End Socks5More.

(** ** Splitting and joining *)

Lemma string_app_assoc (a b c : string) :
  ((a ++ b) ++ c = a ++ (b ++ c))%string.
Proof. induction a as [| x a IH]; cbn; [reflexivity | now rewrite IH]. Qed.

Section SplitJoin.
Local Open Scope string_scope.

Variable sep : ascii.

Lemma Join_Split s : Join (Split s sep) sep = s.
Proof.
  induction s as [| a r IH]; [reflexivity |]. cbn [Split].
  pose proof (Split_nonempty sep r) as Hne.
  destruct (Ascii.eqb_spec a sep) as [-> | _].
  - destruct (Split r sep) as [| h t]; [contradiction |].
    rewrite <- IH. reflexivity.
  - destruct (Split r sep) as [| h t]; [contradiction |].
    rewrite <- IH. now destruct t.
Qed.

Lemma length_Split s : List.length (Split s sep) = S (Count s sep).
Proof.
  induction s as [| a r IH]; [reflexivity |]. cbn [Split Count].
  destruct (Ascii.eqb a sep); cbn [List.length]; [now rewrite IH |].
  pose proof (Split_nonempty sep r) as Hne.
  destruct (Split r sep) as [| h t]; [contradiction |].
  cbn [List.length] in *. lia.
Qed.

Lemma Split_app_no_sep p t :
  Contains p sep = false ->
  Split (p ++ String sep t) sep = p :: Split t sep.
Proof.
  induction p as [| a r IH]; cbn [append Split Contains].
  - now rewrite Ascii.eqb_refl.
  - intros H. apply orb_false_iff in H as [Ha Hr].
    now rewrite Ha, (IH Hr).
Qed.

Lemma Split_Join parts :
  parts <> [] ->
  Forall (fun p => Contains p sep = false) parts ->
  Split (Join parts sep) sep = parts.
Proof.
  induction parts as [| p rest IH]; [contradiction |].
  intros _ Hall. inversion Hall as [| ? ? Hp Hrest]; subst.
  destruct rest as [| q rest'].
  - cbn [Join]. now apply Split_no_sep.
  - change (Join (p :: q :: rest') sep)
      with (p ++ String sep (Join (q :: rest') sep)).
    rewrite Split_app_no_sep by exact Hp.
    now rewrite IH.
Qed.

End SplitJoin.

Section ParseMore.
Import config.
Local Open Scope string_scope.

Lemma Split_parts_Forall s :
  Forall (fun p => Contains p ":" = false) (Split s ":").
Proof. apply Forall_forall, Split_parts_no_sep. Qed.

(** The parsers accept the specs with two or three colons, and no
    other. *)
Theorem parse_forward_accepts spec :
  (Count spec ":" = 2%nat \/ Count spec ":" = 3%nat ->
   (exists l, ParseLocalForward spec = inl l)
   /\ (exists r, ParseRemoteForward spec = inl r))
  /\ (Count spec ":" <> 2%nat -> Count spec ":" <> 3%nat ->
      ParseLocalForward spec = inr (InvalidLocalForward spec)
      /\ ParseRemoteForward spec = inr (InvalidRemoteForward spec)).
Proof.
  pose proof (length_Split ":" spec) as Hlen.
  unfold ParseLocalForward, ParseRemoteForward.
  destruct (Split spec ":") as [| p0 [| p1 [| p2 [| p3 [| p4 l]]]]];
    cbn [List.length] in Hlen; split;
    try (intros [H | H]; lia);
    try (intros H2 H3; (lia || (split; reflexivity)));
    intros _; split; eexists; reflexivity.
Qed.

(** Parsing keeps the spec: bind and target joined by a colon give the
    spec back, after the default bind host when the spec has none. *)
Theorem parse_forward_recompose spec :
  (forall l, ParseLocalForward spec = inl l ->
     (Count spec ":" = 3%nat /\ LBind l ++ ":" ++ LTarget l = spec)
     \/ (Count spec ":" = 2%nat
         /\ LBind l ++ ":" ++ LTarget l = "127.0.0.1:" ++ spec))
  /\ (forall r, ParseRemoteForward spec = inl r ->
     (Count spec ":" = 3%nat /\ RBind r ++ ":" ++ RTarget r = spec)
     \/ (Count spec ":" = 2%nat
         /\ RBind r ++ ":" ++ RTarget r = "0.0.0.0:" ++ spec))
  /\ (forall d, ParseDynamicForward spec = inl d ->
     (Contains spec ":" = true /\ DBind d = spec)
     \/ (Contains spec ":" = false /\ DBind d = "127.0.0.1:" ++ spec)).
Proof.
  pose proof (length_Split ":" spec) as Hlen.
  pose proof (Join_Split ":" spec) as Hjoin.
  split; [| split].
  - intros l. unfold ParseLocalForward.
    destruct (Split spec ":") as [| p0 [| p1 [| p2 [| p3 [| p4 ps]]]]];
      try discriminate; intros [= <-]; cbn [LBind LTarget];
      cbn [List.length] in Hlen; cbn [Join] in Hjoin.
    + right. split; [lia |]. rewrite <- Hjoin, ?string_app_assoc. reflexivity.
    + left. split; [lia |]. rewrite <- Hjoin, ?string_app_assoc. reflexivity.
  - intros r. unfold ParseRemoteForward.
    destruct (Split spec ":") as [| p0 [| p1 [| p2 [| p3 [| p4 ps]]]]];
      try discriminate; intros [= <-]; cbn [RBind RTarget];
      cbn [List.length] in Hlen; cbn [Join] in Hjoin.
    + right. split; [lia |]. rewrite <- Hjoin, ?string_app_assoc. reflexivity.
    + left. split; [lia |]. rewrite <- Hjoin, ?string_app_assoc. reflexivity.
  - intros d. unfold ParseDynamicForward.
    destruct (Contains spec ":"); intros [= <-]; cbn [DBind]; auto.
Qed.

(** The canonical form of a parsed spec parses to the same spec. *)
Theorem parse_forward_canonical spec :
  (forall l, ParseLocalForward spec = inl l ->
     ParseLocalForward (LBind l ++ ":" ++ LTarget l) = inl l)
  /\ (forall r, ParseRemoteForward spec = inl r ->
     ParseRemoteForward (RBind r ++ ":" ++ RTarget r) = inl r)
  /\ (forall d, ParseDynamicForward spec = inl d ->
     ParseDynamicForward (DBind d) = inl d).
Proof.
  pose proof (Split_parts_Forall spec) as Hall.
  split; [| split].
  - intros l. unfold ParseLocalForward at 1.
    destruct (Split spec ":") as [| p0 [| p1 [| p2 [| p3 [| p4 ps]]]]];
      try discriminate; intros [= <-]; cbn [LBind LTarget].
    + inversion Hall as [| ? ? H0 Hall1]; subst.
      assert (Hs : Split (Join ["127.0.0.1"; p0; p1; p2] ":") ":"
                   = ["127.0.0.1"; p0; p1; p2])
        by (apply Split_Join; [discriminate | now constructor]).
      cbn [Join] in Hs. unfold ParseLocalForward.
      rewrite ?string_app_assoc. cbn [append] in *. now rewrite Hs.
    + assert (Hs : Split (Join [p0; p1; p2; p3] ":") ":" = [p0; p1; p2; p3])
        by (apply Split_Join; [discriminate | assumption]).
      cbn [Join] in Hs. unfold ParseLocalForward.
      rewrite ?string_app_assoc. cbn [append] in *. now rewrite Hs.
  - intros r. unfold ParseRemoteForward at 1.
    destruct (Split spec ":") as [| p0 [| p1 [| p2 [| p3 [| p4 ps]]]]];
      try discriminate; intros [= <-]; cbn [RBind RTarget].
    + inversion Hall as [| ? ? H0 Hall1]; subst.
      assert (Hs : Split (Join ["0.0.0.0"; p0; p1; p2] ":") ":"
                   = ["0.0.0.0"; p0; p1; p2])
        by (apply Split_Join; [discriminate | now constructor]).
      cbn [Join] in Hs. unfold ParseRemoteForward.
      rewrite ?string_app_assoc. cbn [append] in *. now rewrite Hs.
    + assert (Hs : Split (Join [p0; p1; p2; p3] ":") ":" = [p0; p1; p2; p3])
        by (apply Split_Join; [discriminate | assumption]).
      cbn [Join] in Hs. unfold ParseRemoteForward.
      rewrite ?string_app_assoc. cbn [append] in *. now rewrite Hs.
  - intros d. unfold ParseDynamicForward at 1.
    destruct (Contains spec ":") eqn:Hc; intros [= <-]; cbn [DBind];
      unfold ParseDynamicForward.
    + now rewrite Hc.
    + reflexivity.
Qed.

(** The two parsers differ in the default bind host only. *)
Theorem parse_local_remote_agree spec l r :
  ParseLocalForward spec = inl l ->
  ParseRemoteForward spec = inl r ->
  LTarget l = RTarget r
  /\ (Count spec ":" = 3%nat -> LBind l = RBind r)
  /\ (Count spec ":" = 2%nat ->
      exists port, LBind l = "127.0.0.1:" ++ port
                   /\ RBind r = "0.0.0.0:" ++ port).
Proof.
  pose proof (length_Split ":" spec) as Hlen.
  unfold ParseLocalForward, ParseRemoteForward.
  destruct (Split spec ":") as [| p0 [| p1 [| p2 [| p3 [| p4 ps]]]]];
    try discriminate; intros [= <-] [= <-];
    cbn [LBind LTarget RBind RTarget List.length] in *;
    (split; [reflexivity |]); split; intros; try lia;
    first [reflexivity | exists p0; split; reflexivity].
Qed.

End ParseMore.

(** ** Indexing and slicing *)

Section Slices.
Local Open Scope string_scope.

Variable c : ascii.

Lemma Index_absent s : Contains s c = false -> Index s c = -1.
Proof.
  induction s as [| a r IH]; cbn; [reflexivity |].
  intros H. apply orb_false_iff in H as [Ha Hr].
  now rewrite Ha, (IH Hr).
Qed.

Lemma Index_first u r :
  Contains u c = false ->
  Index (u ++ String c r) c = Z.of_nat (String.length u).
Proof.
  induction u as [| a u IH]; cbn [append Index Contains String.length].
  - now rewrite Ascii.eqb_refl.
  - intros H. apply orb_false_iff in H as [Ha Hu].
    rewrite Ha, (IH Hu).
    destruct (Z.eqb_spec (Z.of_nat (String.length u)) (-1)); lia.
Qed.

Lemma LastIndex_absent s : Contains s c = false -> LastIndex s c = -1.
Proof.
  induction s as [| a r IH]; cbn; [reflexivity |].
  intros H. apply orb_false_iff in H as [Ha Hr].
  now rewrite (IH Hr), Ha.
Qed.

Lemma LastIndex_last h p :
  Contains p c = false ->
  LastIndex (h ++ String c p) c = Z.of_nat (String.length h).
Proof.
  intros Hp.
  induction h as [| a h IH]; cbn [append LastIndex String.length].
  - now rewrite (LastIndex_absent p Hp), Ascii.eqb_refl.
  - rewrite IH.
    destruct (Z.eqb_spec (Z.of_nat (String.length h)) (-1)); lia.
Qed.

Lemma slice_to_app u r :
  slice_to (u ++ r) (Z.of_nat (String.length u)) = u.
Proof.
  unfold slice_to. rewrite Nat2Z.id.
  induction u as [| a u IH]; cbn; [now destruct r | now rewrite IH].
Qed.

Lemma slice_from_app u a r :
  slice_from (u ++ String a r) (Z.of_nat (String.length u) + 1) = r.
Proof.
  unfold slice_from.
  replace (Z.to_nat (Z.of_nat (String.length u) + 1))
    with (S (String.length u)) by lia.
  induction u as [| b u IH]; cbn; [reflexivity | exact IH].
Qed.

End Slices.

(** ** The target argument *)

Section TargetProps.
Import config.
Local Open Scope string_scope.

Variable Sscanf_d : string -> option Z.

Lemma of_nat_not_minus_one n : (Z.of_nat n =? -1)%Z = false.
Proof. apply Z.eqb_neq. lia. Qed.

(** The forms of a target: user, host and port; a port text that does
    not scan; user and host; host alone. *)
Theorem ParseTarget_forms user host text :
  Contains user "@" = false -> host <> "" ->
  (Contains text ":" = false ->
   ParseTarget Sscanf_d (user ++ "@" ++ host ++ ":" ++ text)
   = match Sscanf_d text with
     | Some port => inl (user, host, port)
     | None => inr (InvalidPort text)
     end)
  /\ (Contains host ":" = false ->
      ParseTarget Sscanf_d (user ++ "@" ++ host) = inl (user, host, 22%Z))
  /\ (Contains host "@" = false -> Contains host ":" = false ->
      ParseTarget Sscanf_d host = inl ("", host, 22%Z)).
Proof.
  intros Hu Hh.
  assert (Hne : String.eqb host "" = false) by now apply String.eqb_neq.
  split; [| split].
  - intros Ht. unfold ParseTarget.
    change (user ++ "@" ++ host ++ ":" ++ text)
      with (user ++ String "@" (host ++ ":" ++ text)).
    rewrite (Index_first "@" user _ Hu), of_nat_not_minus_one.
    cbn [negb]. rewrite slice_to_app, slice_from_app.
    change (host ++ ":" ++ text) with (host ++ String ":" text).
    rewrite (LastIndex_last ":" host text Ht), of_nat_not_minus_one.
    cbn [negb]. rewrite slice_to_app, slice_from_app.
    destruct (Sscanf_d text); [now rewrite Hne | reflexivity].
  - intros Hc. unfold ParseTarget.
    change (user ++ "@" ++ host) with (user ++ String "@" host).
    rewrite (Index_first "@" user _ Hu), of_nat_not_minus_one.
    cbn [negb]. rewrite slice_to_app, slice_from_app.
    rewrite (LastIndex_absent ":" host Hc). cbn. now rewrite Hne.
  - intros Ha Hc. unfold ParseTarget.
    rewrite (Index_absent "@" host Ha). cbn [Z.eqb Pos.eqb negb].
    rewrite (LastIndex_absent ":" host Hc). cbn. now rewrite Hne.
Qed.

Lemma Index_ge s c : -1 <= Index s c.
Proof.
  induction s as [| a r IH]; cbn; [lia |].
  destruct (Ascii.eqb a c); [lia |].
  destruct (Z.eqb_spec (Index r c) (-1)); lia.
Qed.

Lemma slice_to_Index s c : Contains (slice_to s (Index s c)) c = false.
Proof.
  unfold slice_to. induction s as [| a r IH]; [reflexivity |].
  cbn [Index]. destruct (Ascii.eqb a c) eqn:Ea; [reflexivity |].
  pose proof (Index_ge r c) as Hge.
  destruct (Z.eqb_spec (Index r c) (-1)); [reflexivity |].
  replace (Z.to_nat (Index r c + 1)) with (S (Z.to_nat (Index r c))) by lia.
  cbn [take Contains]. now rewrite Ea, IH.
Qed.

(** What a successful parse gives. *)
Theorem ParseTarget_ok target user host port :
  ParseTarget Sscanf_d target = inl (user, host, port) ->
  host <> ""
  /\ Contains user "@" = false
  /\ (Contains target ":" = false -> port = 22%Z).
Proof.
  unfold ParseTarget.
  set (idx := Index target "@").
  pose proof (slice_to_Index target "@") as Hu. fold idx in Hu.
  assert (Hcol : Contains target ":" = false ->
                 forall k, Contains (slice_from target k) ":" = false).
  { intros H k. unfold slice_from. generalize (Z.to_nat k). clear -H.
    induction target as [| a r IH]; intros [| n]; try exact H.
    cbn [drop]. apply IH. cbn in H.
    now apply orb_false_iff in H as [_ H]. }
  destruct (negb (idx =? -1)%Z).
  - set (rest := slice_from target (idx + 1)) in *.
    destruct (negb (LastIndex rest ":" =? -1)%Z) eqn:El.
    + destruct (Sscanf_d _); [| discriminate].
      destruct (String.eqb_spec (slice_to rest (LastIndex rest ":")) "");
        [discriminate |].
      intros [= <- <- <-]. repeat split; try assumption.
      intros H. specialize (Hcol H (idx + 1)). fold rest in Hcol.
      rewrite (LastIndex_absent ":" rest Hcol) in El. discriminate.
    + destruct (String.eqb_spec rest ""); [discriminate |].
      intros [= <- <- <-]. repeat split; assumption.
  - destruct (negb (LastIndex target ":" =? -1)%Z) eqn:El.
    + destruct (Sscanf_d _); [| discriminate].
      destruct (String.eqb_spec (slice_to target (LastIndex target ":")) "");
        [discriminate |].
      intros [= <- <- <-]. repeat split; try assumption; try reflexivity.
      intros H. rewrite (LastIndex_absent ":" target H) in El. discriminate.
    + destruct (String.eqb_spec target ""); [discriminate |].
      intros [= <- <- <-]. repeat split; try assumption; reflexivity.
Qed.

End TargetProps.

(** ** Validation *)

Section ValidateProps.
Import config.
Local Open Scope string_scope.

Variable UserHomeDir : result string.
Variable filepath_Join : list string -> string.

Lemma validateAuth_keeps c :
  let c' := snd (validateAuth UserHomeDir filepath_Join c) in
  Server c' = Server c /\ Tunnels c' = Tunnels c
  /\ Reconnect c' = Reconnect c /\ LogLevel c' = LogLevel c
  /\ AuthType (Auth c') = AuthType (Auth c)
  /\ Password (Auth c') = Password (Auth c)
  /\ Passphrase (Auth c') = Passphrase (Auth c)
  /\ (KeyFile (Auth c') = KeyFile (Auth c)
      \/ (AuthType (Auth c) = "key" /\ KeyFile (Auth c) = ""
          /\ exists home,
              UserHomeDir = Ok home
              /\ KeyFile (Auth c') = filepath_Join [home; ".ssh"; "id_rsa"])).
Proof.
  unfold validateAuth.
  destruct (String.eqb_spec (AuthType (Auth c)) "password");
    [cbn; tauto |].
  destruct (String.eqb_spec (AuthType (Auth c)) "key"); [| cbn; tauto].
  destruct (String.eqb_spec (KeyFile (Auth c)) ""); [| cbn; tauto].
  destruct UserHomeDir as [home |]; [| cbn; tauto].
  cbn. repeat split; try reflexivity. right. eauto.
Qed.

(** [Validate] accepts exactly the complete configurations. *)
Theorem Validate_accepts c :
  fst (Validate UserHomeDir filepath_Join c) = None
  <-> Host (Server c) <> "" /\ User (Server c) <> ""
      /\ (1 <= Port (Server c) <= 65535)%Z
      /\ (AuthType (Auth c) = "password" \/ AuthType (Auth c) = "key")
      /\ (TunnelsLocal (Tunnels c) <> []
          \/ TunnelsRemote (Tunnels c) <> []
          \/ TunnelsDynamic (Tunnels c) <> []).
Proof.
  unfold Validate.
  destruct (String.eqb_spec (Host (Server c)) "") as [Hh | Hh];
    [cbn; split; [discriminate | tauto] |].
  destruct (String.eqb_spec (User (Server c)) "") as [Hu | Hu];
    [cbn; split; [discriminate | tauto] |].
  destruct (Z.leb_spec (Port (Server c)) 0);
    [cbn; split; [discriminate | lia] |].
  destruct (Z.gtb_spec (Port (Server c)) 65535);
    [cbn; split; [discriminate | lia] |].
  cbn [orb].
  pose proof (validateAuth_keeps c) as (_ & Ht & _).
  assert (Hauth : fst (validateAuth UserHomeDir filepath_Join c) = None
                  <-> (AuthType (Auth c) = "password"
                       \/ AuthType (Auth c) = "key")).
  { unfold validateAuth.
    destruct (String.eqb_spec (AuthType (Auth c)) "password");
      [cbn; tauto |].
    destruct (String.eqb_spec (AuthType (Auth c)) "key").
    - destruct (String.eqb (KeyFile (Auth c)) "");
        [destruct UserHomeDir |]; cbn; tauto.
    - cbn. split; [discriminate | tauto]. }
  destruct (validateAuth UserHomeDir filepath_Join c) as [[e |] c'];
    cbn [fst snd] in *.
  - split; [discriminate |]. intros (_ & _ & _ & Ha & _).
    apply Hauth in Ha. discriminate.
  - rewrite Ht.
    assert (Hnil : forall A (l : list A),
               (List.length l =? 0)%nat = true <-> l = []).
    { intros A l. rewrite Nat.eqb_eq. apply length_zero_iff_nil. }
    destruct (_ && _) eqn:Et; cbn [fst].
    + apply andb_prop in Et as [Et Ed]. apply andb_prop in Et as [El Er].
      apply Hnil in El, Er, Ed.
      split; [discriminate |].
      intros (_ & _ & _ & _ & [Hx | [Hx | Hx]]); contradiction.
    + split; [| reflexivity]. intros _.
      repeat split; try assumption; try lia; [now apply Hauth |].
      apply andb_false_iff in Et as [Et | Ed];
        [apply andb_false_iff in Et as [El | Er] |].
      * left. intros Hx. apply Hnil in Hx. congruence.
      * right. left. intros Hx. apply Hnil in Hx. congruence.
      * right. right. intros Hx. apply Hnil in Hx. congruence.
Qed.

(** [Validate] touches the key file only, and running it again changes
    nothing more. *)
Theorem Validate_idempotent c :
  let r := Validate UserHomeDir filepath_Join c in
  Validate UserHomeDir filepath_Join (snd r) = r
  /\ Server (snd r) = Server c /\ Tunnels (snd r) = Tunnels c
  /\ Reconnect (snd r) = Reconnect c
  /\ AuthType (Auth (snd r)) = AuthType (Auth c)
  /\ (KeyFile (Auth c) <> "" -> snd r = c).
Proof.
  cbv zeta. unfold Validate.
  destruct (String.eqb (Host (Server c)) "") eqn:Eh;
    [cbn; rewrite Eh; tauto |].
  destruct (String.eqb (User (Server c)) "") eqn:Eu;
    [cbn; rewrite Eh, Eu; tauto |].
  destruct ((Port (Server c) <=? 0)%Z || (Port (Server c) >? 65535)%Z) eqn:Ep;
    [cbn; rewrite Eh, Eu, Ep; tauto |].
  assert (Hva : let a := validateAuth UserHomeDir filepath_Join c in
                validateAuth UserHomeDir filepath_Join (snd a) = a
                /\ (KeyFile (Auth c) <> "" -> snd a = c)).
  { unfold validateAuth.
    destruct (String.eqb (AuthType (Auth c)) "password") eqn:E1;
      [cbn; rewrite E1; tauto |].
    destruct (String.eqb (AuthType (Auth c)) "key") eqn:E2;
      [| cbn; rewrite E1, E2; tauto].
    destruct (String.eqb_spec (KeyFile (Auth c)) "") as [Ek | Ek].
    - destruct UserHomeDir as [home |] eqn:Eh'.
      + cbn. rewrite E1, E2. split; [| tauto].
        destruct (String.eqb (filepath_Join _) ""); reflexivity.
      + cbn. rewrite E1, E2, Ek. cbn. tauto.
    - cbn. rewrite E1, E2.
      apply String.eqb_neq in Ek. rewrite Ek. tauto. }
  pose proof (validateAuth_keeps c) as (Hs & Ht & Hr & _ & Ha & _).
  cbv zeta in Hva. destruct Hva as [Hva Hkeep].
  destruct (validateAuth UserHomeDir filepath_Join c) as [[e |] c'];
    cbn [fst snd] in *.
  - rewrite Hs, Eh, Eu, Ep, Hva. tauto.
  - destruct (_ && _) eqn:Et; cbn [snd];
      rewrite Hs, Eh, Eu, Ep, Hva, Et; tauto.
Qed.

Lemma Validate_port c :
  fst (Validate UserHomeDir filepath_Join c) = None ->
  (1 <= Port (Server c) <= 65535)%Z.
Proof.
  unfold Validate.
  destruct (String.eqb (Host (Server c)) ""); [discriminate |].
  destruct (String.eqb (User (Server c)) ""); [discriminate |].
  destruct (Z.leb_spec (Port (Server c)) 0); [discriminate |].
  destruct (Z.gtb_spec (Port (Server c)) 65535); [discriminate |].
  intros _. lia.
Qed.

Lemma Validate_Server c :
  Server (snd (Validate UserHomeDir filepath_Join c)) = Server c.
Proof.
  unfold Validate.
  destruct (String.eqb (Host (Server c)) ""); [reflexivity |].
  destruct (String.eqb (User (Server c)) ""); [reflexivity |].
  destruct (_ || _); [reflexivity |].
  pose proof (validateAuth_keeps c) as (Hs & _).
  destruct (validateAuth UserHomeDir filepath_Join c) as [[e |] c'];
    cbn [snd] in *; [exact Hs |].
  destruct (_ && _); exact Hs.
Qed.


End ValidateProps.

(** ** The transport handle, over its life *)

Section ClientLife.
Variable sshConn : Type.

Lemma client_after_snoc (ops : list (client_op sshConn)) op :
  client_after (ops ++ [op]) = client_step (client_after ops) op.
Proof. unfold client_after. now rewrite fold_left_app. Qed.

Lemma Connect_conn (c : ssh.Client sshConn) auth dial k :
  ssh.conn (snd (ssh.Connect c auth dial)) = Some k
  <-> auth = None /\ dial = Ok k.
Proof.
  unfold ssh.Connect. destruct auth as [e |]; [| destruct dial as [k' | e']].
  - split; [| intros [H _]; discriminate].
    destruct (ssh.conn c) eqn:E; cbn; congruence.
  - cbn. split; [intros [= ->]; now split | intros [_ [= ->]]; reflexivity].
  - split; [| intros [_ H]; discriminate].
    destruct (ssh.conn c) eqn:E; cbn; congruence.
Qed.

Lemma Connect_closed (c : ssh.Client sshConn) auth dial :
  ssh.closed (snd (ssh.Connect c auth dial)) = true ->
  ssh.conn (snd (ssh.Connect c auth dial)) = None.
Proof.
  unfold ssh.Connect.
  destruct auth, dial, (ssh.conn c) eqn:E; cbn; congruence.
Qed.

(** The client holds a connection exactly after a successful [Connect]:
    a failed [Connect] drops the one it held, and so does [Close]; a
    client marked closed holds none. *)
Theorem client_lifecycle (ops : list (client_op sshConn)) :
  let c := client_after ops in
  (forall k, ssh.conn c = Some k
             <-> exists before, ops = before ++ [DoConnect None (Ok k)])
  /\ (ssh.closed c = true -> ssh.conn c = None).
Proof.
  cbv zeta. destruct ops as [| op0 ops0] using rev_ind.
  - split; [| reflexivity]. intros k. split; [discriminate |].
    intros (before & H). now destruct before.
  - rewrite client_after_snoc. split.
    + intros k. destruct op0 as [auth dial | close_err]; cbn [client_step].
      * rewrite Connect_conn. split.
        -- intros [-> ->]. now exists ops0.
        -- intros (before & H). apply app_inj_tail in H as [_ [= -> ->]].
           now split.
      * split.
        -- unfold ssh.Close. destruct (ssh.conn _); discriminate.
        -- intros (before & H). apply app_inj_tail in H as [_ H].
           discriminate.
    + destruct op0 as [auth dial | close_err]; cbn [client_step].
      * apply Connect_closed.
      * intros _. unfold ssh.Close. now destruct (ssh.conn _).
Qed.

(** [Close] twice is [Close] once, and only the first gives the error
    of the connection; after it nothing goes through the client. *)
Theorem Close_idempotent (c : ssh.Client sshConn) e1 e2
        (conn_SendRequest : sshConn -> string -> bool -> option error) :
  let c1 := snd (ssh.Close c e1) in
  ssh.Close c1 e2 = (None, c1)
  /\ ssh.IsClosed c1 = true
  /\ ssh.IsConnected conn_SendRequest c1 = false
  /\ fst (ssh.KeepAlive conn_SendRequest c1) = Some ssh.ErrNotConnected
  /\ (fst (ssh.Close c e1) <> None -> ssh.conn c <> None).
Proof.
  cbv zeta. unfold ssh.Close.
  destruct (ssh.conn c); cbn; repeat split; congruence.
Qed.

End ClientLife.

(** ** Stopping the monitor *)

Lemma monitor_after_snoc calls call :
  monitor_after (calls ++ [call]) = monitor_step (monitor_after calls) call.
Proof. unfold monitor_after. now rewrite fold_left_app. Qed.

Lemma starts_snoc calls call :
  starts (calls ++ [call])
  = (starts calls + match call with CallStart => 1 | CallStop => 0 end)%nat.
Proof.
  unfold starts. rewrite filter_app, length_app. now destruct call.
Qed.

Lemma stopped_stays calls :
  starts calls = 0%nat ->
  fold_left monitor_step calls
            (Some {| monitor.running := false; monitor.stopCh_closed := true |})
  = Some {| monitor.running := false; monitor.stopCh_closed := true |}.
Proof.
  induction calls as [| [|] rest IH]; intros H;
    [reflexivity | discriminate | exact (IH H)].
Qed.

Lemma running_then_stops calls :
  starts calls = 0%nat ->
  fold_left monitor_step calls
            (Some {| monitor.running := true; monitor.stopCh_closed := false |})
  = Some {| monitor.running := negb (existsb is_stop calls);
            monitor.stopCh_closed := existsb is_stop calls |}.
Proof.
  induction calls as [| [|] rest IH]; intros H;
    [reflexivity | discriminate |].
  cbn [fold_left monitor_step existsb is_stop orb negb].
  apply stopped_stays, H.
Qed.


(** ** The accept loop *)

Section AcceptLoop.
Import tunnel.
Variable conn : Type.

(** Once the listener is held, [Start] returns only nil, and only after
    it has seen the cancellation; until then every accepted connection
    is handed to a handler, in order, and accept errors are logged and
    survived.  When the listener cannot be had, the error is returned
    and nothing is served. *)
Theorem endpoint_Start_serves (turns : list (accept_turn conn)) :
  (let (acts, o) := endpoint_Start None turns in
   handled_conns acts = accepted_conns (served turns)
   /\ o = (if existsb sees_cancel turns
           then StartReturned None else Accepting))
  /\ (forall e,
         endpoint_Start (Some e) turns = ([], StartReturned (Some e))).
Proof.
  split; [| reflexivity]. unfold endpoint_Start.
  induction turns as [| t rest IH]; [now split |].
  cbn [acceptLoop served existsb].
  destruct (acceptLoop rest) as [acts o]. destruct IH as [IH1 IH2].
  unfold sees_cancel in *.
  destruct (done_at_top t); cbn [orb]; [now split |].
  destruct (accepted t) as [c | e] eqn:Ea.
  - split; [| exact IH2].
    unfold handled_conns, accepted_conns in *. cbn [flat_map].
    rewrite Ea. cbn [app]. now f_equal.
  - destruct (done_after_error t); [now split |].
    split; [| exact IH2].
    unfold handled_conns, accepted_conns in *. cbn [flat_map].
    now rewrite Ea.
Qed.

End AcceptLoop.

(** ** The endpoints of a session *)

Lemma fold_left_snoc_map A B (f : A -> B) (l : list A) (init : list B) :
  fold_left (fun acc x => acc ++ [f x]) l init = init ++ map f l.
Proof.
  revert init. induction l as [| x l IH]; intros init; cbn.
  - now rewrite app_nil_r.
  - now rewrite IH, <- app_assoc.
Qed.

Lemma map_const_repeat A B (b : B) (l : list A) :
  map (fun _ => b) l = repeat b (List.length l).
Proof. induction l as [| x l IH]; cbn; [reflexivity | now rewrite IH]. Qed.

(** One endpoint per forward specification, none lost or repeated, the
    local ones first, then the remote, then the dynamic, each group in
    the order of the configuration. *)
Theorem buildTunnels_order (cfg : config.Config) :
  let t := config.Tunnels cfg in
  tunnel.buildTunnels cfg
  = map tunnel.LocalT (config.TunnelsLocal t)
      ++ map tunnel.RemoteT (config.TunnelsRemote t)
      ++ map tunnel.DynamicT (config.TunnelsDynamic t)
  /\ List.length (tunnel.buildTunnels cfg)
     = (List.length (config.TunnelsLocal t)
        + List.length (config.TunnelsRemote t)
        + List.length (config.TunnelsDynamic t))%nat
  /\ map tunnel.Tunnel_Type (tunnel.buildTunnels cfg)
     = repeat "local" (List.length (config.TunnelsLocal t))
         ++ repeat "remote" (List.length (config.TunnelsRemote t))
         ++ repeat "dynamic" (List.length (config.TunnelsDynamic t)).
Proof.
  cbv zeta.
  assert (H : tunnel.buildTunnels cfg
              = map tunnel.LocalT (config.TunnelsLocal (config.Tunnels cfg))
                  ++ map tunnel.RemoteT
                       (config.TunnelsRemote (config.Tunnels cfg))
                  ++ map tunnel.DynamicT
                       (config.TunnelsDynamic (config.Tunnels cfg))).
  { unfold tunnel.buildTunnels. rewrite !fold_left_snoc_map.
    now rewrite <- app_assoc. }
  rewrite H. split; [reflexivity |]. split.
  - rewrite !length_app, !length_map. lia.
  - rewrite !map_app, !map_map. cbn [tunnel.Tunnel_Type].
    now rewrite !map_const_repeat.
Qed.

(** ** The further properties at work *)

Lemma calculateBackoff_saturates_witness :
  6 <= 9
  /\ monitor.calculateBackoff 9 (5 * Second)
     = monitor.calculateBackoff 6 (5 * Second).
Proof.
  assert (H : 6 <= 9) by lia.
  split; [exact H |].
  exact (proj1 (calculateBackoff_saturates 9 (5 * Second)) H).
Defined.

Lemma calculateBackoff_monotone_witness :
  (1 <= 2 /\ 0 <= 5 * Second /\ 5 * Second * 32 < 2 ^ 63)
  /\ Z.min (5 * Second) (60 * Second) <= monitor.calculateBackoff 2 (5 * Second)
  /\ monitor.calculateBackoff 2 (5 * Second)
     <= monitor.calculateBackoff (2 + 1) (5 * Second)
  /\ monitor.calculateBackoff (2 + 1) (5 * Second) <= 60 * Second.
Proof.
  assert (H1 : 1 <= 2) by lia.
  assert (H2 : 0 <= 5 * Second) by (unfold Second; lia).
  assert (H3 : 5 * Second * 32 < 2 ^ 63) by (unfold Second; lia).
  split; [now repeat split |].
  exact (calculateBackoff_monotone 2 (5 * Second) H1 H2 H3).
Defined.

Lemma monitor_waits_bounded_witness :
  (In (monitor.Backoff (5 * Second))
      (fst (monitor.Start_from budget3 0 [refused 1]))
   /\ is_wait (monitor.Backoff (5 * Second)))
  /\ config.Enabled budget3 = true
  /\ exists d, monitor.Backoff (5 * Second) = monitor.Backoff d
               /\ d <= 60 * Second.
Proof.
  assert (H1 : In (monitor.Backoff (5 * Second))
                  (fst (monitor.Start_from budget3 0 [refused 1])))
    by (right; left; reflexivity).
  assert (H2 : is_wait (monitor.Backoff (5 * Second)))
    by (exists (5 * Second); reflexivity).
  split; [now split |].
  exact (monitor_waits_bounded budget3 0 [refused 1] _ H1 H2).
Defined.

Lemma monitor_never_gives_up_witness :
  (config.Enabled unbounded = true /\ config.MaxRetries unbounded <= 0)
  /\ snd (monitor.Start_from unbounded 0 [refused 1; refused 2; refused 3])
     <> monitor.Returned (Some (OtherError 3)).
Proof.
  assert (H1 : config.Enabled unbounded = true) by reflexivity.
  assert (H2 : config.MaxRetries unbounded <= 0) by (cbn; lia).
  split; [now split |].
  exact (monitor_never_gives_up unbounded 0 [refused 1; refused 2; refused 3]
                                (OtherError 3) H1 H2).
Defined.

Lemma monitor_clean_exit_needs_stop_witness :
  Forall unstopped [dropped 1; dropped 2]
  /\ snd (monitor.Start_from budget3 0 [dropped 1; dropped 2])
     <> monitor.Returned None.
Proof.
  assert (H : Forall unstopped [dropped 1; dropped 2])
    by (repeat constructor; discriminate).
  split; [exact H |].
  exact (monitor_clean_exit_needs_stop budget3 0 _ H).
Defined.


Lemma connect_ipv4_round_trip_witness :
  let c := client_sends [x05; x01; x00;
                         x05; x01; x00; x01; x0a; x00; x00; x01; x1f; x90] in
  (tunnel.rd c = [x05; x01] ++ [x00]
                   ++ [x05; x01; x00; x01; x0a; x00; x00; x01; x1f; x90] ++ []
   /\ List.length [x00] = Byte.to_nat x01
   /\ In x00 [x00]
   /\ tunnel.wr_err c = None)
  /\ tunnel.handleConnection hex_ipText refusing_dial connected c
     = (tunnel.DialFailed (OtherError 7),
        tunnel.conn_written (tunnel.conn_read c [])
          [x05; x00; x05; x04; x00; x01; x00; x00; x00; x00; x00; x00]).
Proof.
  intros c.
  assert (H1 : tunnel.rd c
               = [x05; x01] ++ [x00]
                   ++ [x05; x01; x00; x01; x0a; x00; x00; x01; x1f; x90] ++ [])
    by reflexivity.
  assert (H2 : List.length [x00] = Byte.to_nat x01) by reflexivity.
  assert (H3 : In x00 [x00]) by (left; reflexivity).
  assert (H4 : tunnel.wr_err c = None) by reflexivity.
  split; [now repeat split |].
  exact (connect_ipv4_round_trip hex_ipText unit unit refusing_dial connected
                                 c x01 [x00] x0a x00 x00 x01 x1f x90 []
                                 H1 H2 H3 H4).
Defined.

Lemma unconnected_client_unreachable_witness :
  let c := client_sends [x05; x01; x00;
                         x05; x01; x00; x01; x0a; x00; x00; x01; x1f; x90] in
  let c1 := tunnel.conn_written
              (tunnel.conn_read
                 c [x05; x01; x00; x01; x0a; x00; x00; x01; x1f; x90])
              [x05; x00] in
  let c2 := tunnel.conn_read c1 [] in
  (ssh.conn (@ssh.NewClient unit) = None
   /\ tunnel.handshake c = (inl tt, c1)
   /\ tunnel.readRequest hex_ipText c1 = (inl "10.0.0.1:8080", c2))
  /\ tunnel.handleConnection hex_ipText accepting_dial ssh.NewClient c
     = (tunnel.DialFailed ssh.ErrNotConnected,
        tunnel.conn_written
          c2 [x05; x04; x00; x01; x00; x00; x00; x00; x00; x00]).
Proof.
  intros c c1 c2.
  assert (H1 : ssh.conn (@ssh.NewClient unit) = None) by reflexivity.
  assert (H2 : tunnel.handshake c = (inl tt, c1)) by reflexivity.
  assert (H3 : tunnel.readRequest hex_ipText c1
               = (inl "10.0.0.1:8080", c2)) by reflexivity.
  split; [now repeat split |].
  exact (proj1 (unconnected_client_unreachable
                  hex_ipText unit unit accepting_dial ssh.NewClient
                  c c1 c2 "10.0.0.1:8080" H1 H2 H3)).
Defined.

Lemma parse_forward_accepts_witness :
  (Count "8080:localhost:80" ":" = 2%nat
   \/ Count "8080:localhost:80" ":" = 3%nat)
  /\ exists l, config.ParseLocalForward "8080:localhost:80" = inl l.
Proof.
  assert (H : Count "8080:localhost:80" ":" = 2%nat
              \/ Count "8080:localhost:80" ":" = 3%nat)
    by (left; reflexivity).
  split; [exact H |].
  exact (proj1 (proj1 (parse_forward_accepts "8080:localhost:80") H)).
Defined.

Lemma parse_forward_recompose_witness :
  config.ParseLocalForward "8080:localhost:80"
  = inl {| config.LBind := "127.0.0.1:8080";
           config.LTarget := "localhost:80" |}
  /\ ((Count "8080:localhost:80" ":" = 3%nat
       /\ "127.0.0.1:8080:localhost:80" = "8080:localhost:80")
      \/ (Count "8080:localhost:80" ":" = 2%nat
          /\ "127.0.0.1:8080:localhost:80" = "127.0.0.1:8080:localhost:80")).
Proof.
  split; [reflexivity |].
  exact (proj1 (parse_forward_recompose "8080:localhost:80") _ eq_refl).
Defined.

Lemma parse_forward_canonical_witness :
  config.ParseLocalForward "8080:localhost:80"
  = inl {| config.LBind := "127.0.0.1:8080";
           config.LTarget := "localhost:80" |}
  /\ config.ParseLocalForward "127.0.0.1:8080:localhost:80"
     = inl {| config.LBind := "127.0.0.1:8080";
              config.LTarget := "localhost:80" |}.
Proof.
  split; [reflexivity |].
  exact (proj1 (parse_forward_canonical "8080:localhost:80") _ eq_refl).
Defined.

Lemma parse_local_remote_agree_witness :
  (config.ParseLocalForward "8080:localhost:80"
   = inl {| config.LBind := "127.0.0.1:8080";
            config.LTarget := "localhost:80" |}
   /\ config.ParseRemoteForward "8080:localhost:80"
      = inl {| config.RBind := "0.0.0.0:8080";
               config.RTarget := "localhost:80" |})
  /\ "localhost:80" = "localhost:80".
Proof.
  split; [split; reflexivity |].
  exact (proj1 (parse_local_remote_agree "8080:localhost:80" _ _
                                         eq_refl eq_refl)).
Defined.

Lemma ParseTarget_forms_witness :
  (Contains "alice" "@" = false /\ "example.org" <> ""
   /\ Contains "2222" ":" = false)
  /\ config.ParseTarget scan_decimal "alice@example.org:2222"
     = inl ("alice", "example.org", 2222).
Proof.
  assert (H1 : Contains "alice" "@" = false) by reflexivity.
  assert (H2 : "example.org" <> "") by discriminate.
  assert (H3 : Contains "2222" ":" = false) by reflexivity.
  split; [now repeat split |].
  exact (proj1 (ParseTarget_forms scan_decimal "alice" "example.org" "2222"
                                  H1 H2) H3).
Defined.

Lemma ParseTarget_ok_witness :
  config.ParseTarget scan_decimal "alice@example.org"
  = inl ("alice", "example.org", 22)
  /\ "example.org" <> ""
  /\ Contains "alice" "@" = false
  /\ (Contains "alice@example.org" ":" = false -> 22 = 22).
Proof.
  split; [reflexivity |].
  exact (ParseTarget_ok scan_decimal "alice@example.org" _ _ _ eq_refl).
Defined.

Lemma Validate_accepts_witness :
  (config.Host (config.Server sample_config) <> ""
   /\ config.User (config.Server sample_config) <> ""
   /\ 1 <= config.Port (config.Server sample_config) <= 65535
   /\ (config.AuthType (config.Auth sample_config) = "password"
       \/ config.AuthType (config.Auth sample_config) = "key")
   /\ (config.TunnelsLocal (config.Tunnels sample_config) <> []
       \/ config.TunnelsRemote (config.Tunnels sample_config) <> []
       \/ config.TunnelsDynamic (config.Tunnels sample_config) <> []))
  /\ fst (config.Validate home_alice join_slash sample_config) = None.
Proof.
  assert (H : config.Host (config.Server sample_config) <> ""
              /\ config.User (config.Server sample_config) <> ""
              /\ 1 <= config.Port (config.Server sample_config) <= 65535
              /\ (config.AuthType (config.Auth sample_config) = "password"
                  \/ config.AuthType (config.Auth sample_config) = "key")
              /\ (config.TunnelsLocal (config.Tunnels sample_config) <> []
                  \/ config.TunnelsRemote (config.Tunnels sample_config) <> []
                  \/ config.TunnelsDynamic (config.Tunnels sample_config)
                     <> [])).
  { split; [discriminate |]. split; [discriminate |].
    split; [cbn; lia |]. split; [right; reflexivity |].
    left. discriminate. }
  split; [exact H |].
  exact (proj2 (Validate_accepts home_alice join_slash sample_config) H).
Defined.

Lemma Validate_idempotent_witness :
  let c := config.with_KeyFile sample_config "/home/alice/.ssh/id_ed25519" in
  config.KeyFile (config.Auth c) <> ""
  /\ snd (config.Validate home_alice join_slash c) = c.
Proof.
  intros c.
  assert (H : config.KeyFile (config.Auth c) <> "") by discriminate.
  split; [exact H |].
  exact (proj2 (proj2 (proj2 (proj2 (proj2
           (Validate_idempotent home_alice join_slash c))))) H).
Defined.


Lemma client_lifecycle_witness :
  let ops := [DoConnect None (Ok tt); DoClose None] in
  ssh.closed (client_after ops) = true
  /\ ssh.conn (client_after ops) = None.
Proof.
  intros ops.
  assert (H : ssh.closed (client_after ops) = true) by reflexivity.
  split; [exact H |].
  exact (proj2 (client_lifecycle unit ops) H).
Defined.

Lemma Close_idempotent_witness :
  fst (ssh.Close connected (Some (OtherError 1))) <> None
  /\ ssh.conn connected <> None.
Proof.
  assert (H : fst (ssh.Close connected (Some (OtherError 1))) <> None)
    by discriminate.
  split; [exact H |].
  exact (proj2 (proj2 (proj2 (proj2
           (Close_idempotent unit connected (Some (OtherError 1)) None
                             (fun _ _ _ => None))))) H).
Defined.

